(** * Verification of the OCR text-extractor page (src/pages/Index.tsx)

    A shallow embedding of the orchestration logic of the [Index] component:
    the result builder ([trim], [split], [Math.round]), the progress logger,
    the async function [processImage] as a resumable state machine, the drop
    handler, the clipboard export, [reset] and the text preview. *)

From Stdlib Require Import ZArith List Bool Lia String Ascii.
From Stdlib Require Import Floats.SpecFloat Numbers.DecimalString.
Import ListNotations.

Local Open Scope Z_scope.

(** ** JavaScript numbers

    A JS [number] is an IEEE-754 binary64 value.  The Standard Library's
    [spec_float] is the Gallina specification of that format (precision 53,
    infinities at exponent 1024); all operations below compute. *)

Module JSNumber.

Definition prec : Z := 53.
Definition emax : Z := 1024.

Definition number : Type := spec_float.

(** A [spec_float] is a binary64 value when its mantissa is canonical. *)
Definition is_binary64 (x : number) : bool := valid_binary prec emax x.

Definition of_Z (z : Z) : number := binary_normalize prec emax z 0 false.

Definition zero : number := S754_zero false.

Definition mul (x y : number) : number := SFmul prec emax x y.
Definition div (x y : number) : number := SFdiv prec emax x y.

(** [x <= y] and [x === y] on numbers (false on NaN, [-0 === 0]). *)
Definition leb (x y : number) : bool := SFleb x y.
Definition eqb (x y : number) : bool := SFeqb x y.

(** The integer nearest to the finite value [(-1)^s * m * 2^e] with
    [e < 0], ties going towards +infinity: [floor (x + 1/2)], computed
    exactly. *)
Definition nearest_integer (s : bool) (m : positive) (e : Z) : Z :=
  Z.shiftr ((if s then Z.neg m else Z.pos m) + Z.shiftl 1 (- e - 1)) (- e).

(** [Math.round]: NaN, the infinities, the zeros and the values that are
    already integral ([0 <= e]) are returned as they are; a value rounding
    to zero keeps the sign of the argument. *)
Definition Math_round (x : number) : number :=
  match x with
  | S754_finite s m e =>
      if 0 <=? e then x
      else
        let z := nearest_integer s m e in
        if z =? 0 then S754_zero s else of_Z z
  | _ => x
  end.

(** The mathematical integer a number denotes, when it denotes one. *)
Definition integer_value (x : number) : option Z :=
  match x with
  | S754_zero _ => Some 0
  | S754_finite s m e =>
      if 0 <=? e then Some (Z.shiftl (if s then Z.neg m else Z.pos m) e)
      else if Z.land (Z.pos m) (Z.ones (- e)) =? 0
           then Some (Z.shiftr (if s then Z.neg m else Z.pos m) (- e))
           else None
  | _ => None
  end.

End JSNumber.

Import JSNumber.

(** ** JavaScript strings

    A JS string is a sequence of UTF-16 code units. *)

Module JSString.

Definition code_unit : Type := N.
Definition jsstring : Type := list code_unit.

(** A string literal of the source (ASCII only). *)
Definition js (s : string) : jsstring :=
  List.map N_of_ascii (list_ascii_of_string s).

Definition eqb (s t : jsstring) : bool :=
  if list_eq_dec N.eq_dec s t then true else false.

(** ECMAScript WhiteSpace and LineTerminator code points: the set that
    [String.prototype.trim] strips and that the regular expression class
    [\s] matches. *)
Definition isWhiteSpace (c : code_unit) : bool :=
  ((9 <=? c) && (c <=? 13)            (* TAB, LF, VT, FF, CR *)
   || (c =? 32)                       (* SPACE *)
   || (c =? 160)                      (* NO-BREAK SPACE *)
   || (c =? 5760)                     (* U+1680 *)
   || (8192 <=? c) && (c <=? 8202)    (* U+2000 .. U+200A *)
   || (c =? 8232) || (c =? 8233)      (* U+2028, U+2029 *)
   || (c =? 8239)                     (* U+202F *)
   || (c =? 8287)                     (* U+205F *)
   || (c =? 12288)                    (* U+3000 *)
   || (c =? 65279))%N%bool.           (* U+FEFF *)

Fixpoint trimStart (s : jsstring) : jsstring :=
  match s with
  | [] => []
  | c :: r => if isWhiteSpace c then trimStart r else s
  end.

Definition trimEnd (s : jsstring) : jsstring := rev (trimStart (rev s)).

(** [s.trim()] *)
Definition trim (s : jsstring) : jsstring := trimEnd (trimStart s).

(** [s.split(/\s+/)]: the pieces of [s] between the maximal runs of
    whitespace.  [cur] is the piece being read, reversed; [in_sep] tells
    that the previous code unit belonged to a separator.  A separator at
    either end of [s] yields an empty piece there, and the empty string
    yields one empty piece, as SplitMatcher does for a pattern that does
    not match the empty string. *)
Fixpoint split_go (s cur : jsstring) (in_sep : bool) : list jsstring :=
  match s with
  | [] => [rev cur]
  | c :: r =>
      if isWhiteSpace c then
        if in_sep then split_go r cur true
        else rev cur :: split_go r [] true
      else split_go r (c :: cur) false
  end.

Definition split_whitespace (s : jsstring) : list jsstring :=
  split_go s [] false.

(** [s.substring(0, n)] for [0 <= n] *)
Definition substring0 (n : nat) (s : jsstring) : jsstring := firstn n s.

(** [`${n}`] for a non-negative integer [n] *)
Definition of_nat (n : nat) : jsstring :=
  js (NilZero.string_of_uint (Nat.to_uint n)).

End JSString.

Import JSString.

(** ** The result record and its builder (processImage, lines 41-50) *)

Record File := mkFile { name : jsstring; type : jsstring }.

Record ExtractedData := mkExtractedData {
  text : jsstring;
  confidence : number;
  fileName : jsstring;
  fileType : jsstring;
  timestamp : jsstring;
  wordCount : nat
}.

(** [text.trim().split(/\s+/).filter(word => word.length > 0).length] *)
Definition countWords (raw : jsstring) : nat :=
  List.length
    (List.filter (fun word => Nat.ltb 0 (List.length word))
       (split_whitespace (trim raw))).

(** The object literal [result]; [now] is [new Date().toISOString()]. *)
Definition buildResult (file : File) (raw : jsstring) (conf : number)
    (now : jsstring) : ExtractedData :=
  let wordCount := countWords raw in
  {| text := trim raw;
     confidence := Math_round conf;
     fileName := name file;
     fileType := type file;
     timestamp := now;
     wordCount := wordCount |}.

(** The count the specification asks for, written from its words: the
    number of whitespace-delimited non-empty tokens of a string, that is the
    number of code units that are not whitespace and stand at the start of
    the string or right after a whitespace code unit. *)
Fixpoint spec_tokens_from (after_space : bool) (s : jsstring) : nat :=
  match s with
  | [] => O
  | c :: r =>
      if isWhiteSpace c then spec_tokens_from true r
      else ((if after_space then 1 else 0) + spec_tokens_from false r)%nat
  end.

Definition spec_tokenCount (s : jsstring) : nat := spec_tokens_from true s.

(** Empty or whitespace-only. *)
Definition blank (s : jsstring) : bool := forallb isWhiteSpace s.

(** The filter of [countWords]: [word.length > 0]. *)
Definition nonEmpty (word : jsstring) : bool :=
  Nat.ltb 0 (List.length word).

Definition notWhiteSpace (c : code_unit) : bool := negb (isWhiteSpace c).

(** ** Application state (the four [useState] cells, lines 20-23) *)

Record AppState := mkAppState {
  isProcessing : bool;
  progress : number;
  extractedData : option ExtractedData;
  dragActive : bool
}.

Definition initialState : AppState :=
  {| isProcessing := false; progress := zero;
     extractedData := None; dragActive := false |}.

(** What the component does to the outside: notices, the console, calls to
    the OCR engine and to the clipboard.  The engine calls carry the number
    of the [processImage] invocation that makes them. *)
Inductive Effect :=
| ToastSuccess (message : jsstring)
| ToastError (message : jsstring)
| ConsoleError (label error : jsstring)
| CreateWorker (id : nat)
| Recognize (id : nat) (file : File)
| Terminate (id : nat)
| ClipboardWriteJSON (data : ExtractedData).

Record World := mkWorld { app : AppState; effects : list Effect }.

Definition setIsProcessing (b : bool) (w : World) : World :=
  {| app := {| isProcessing := b; progress := progress (app w);
               extractedData := extractedData (app w);
               dragActive := dragActive (app w) |};
     effects := effects w |}.

Definition setProgress (p : number) (w : World) : World :=
  {| app := {| isProcessing := isProcessing (app w); progress := p;
               extractedData := extractedData (app w);
               dragActive := dragActive (app w) |};
     effects := effects w |}.

Definition setExtractedData (d : option ExtractedData) (w : World) : World :=
  {| app := {| isProcessing := isProcessing (app w);
               progress := progress (app w);
               extractedData := d;
               dragActive := dragActive (app w) |};
     effects := effects w |}.

Definition setDragActive (b : bool) (w : World) : World :=
  {| app := {| isProcessing := isProcessing (app w);
               progress := progress (app w);
               extractedData := extractedData (app w);
               dragActive := b |};
     effects := effects w |}.

Definition emit (e : Effect) (w : World) : World :=
  {| app := app w; effects := effects w ++ [e] |}.

(** Statements in sequence: [w |> f |> g] runs [f], then [g]. *)
Notation "w |> f" := (f w) (at level 45, left associativity, only parsing).

(** ** The engine's side of the conversation *)

Module LoggerMessage.
Record t := mk { status : jsstring; progress : number }.
End LoggerMessage.

(** How an awaited promise settles. *)
Inductive Outcome (A : Type) :=
| Fulfilled (value : A)
| Rejected (error : jsstring).
Arguments Fulfilled {A} value.
Arguments Rejected {A} error.

(** ** processImage (lines 25-61)

    An async function runs until its next [await] and is resumed when the
    awaited promise settles.  [Stage] names the three awaits of the body. *)
Inductive Stage :=
| AwaitCreateWorker                                   (* line 30 *)
| AwaitRecognize                                      (* line 38 *)
| AwaitTerminate (text : jsstring) (confidence : number). (* line 39 *)

(** Lines 26-30, up to the first await. *)
Definition processImage_enter (id : nat) (w : World) : World :=
  w |> setIsProcessing true |> setProgress zero |> emit (CreateWorker id).

(** The [logger] callback handed to [createWorker] (lines 31-35). *)
Definition logger (m : LoggerMessage.t) (w : World) : World :=
  if JSString.eqb (LoggerMessage.status m) (js "recognizing text")
  then w |> setProgress
              (Math_round (mul (LoggerMessage.progress m) (of_Z 100)))
  else w.

(** The [finally] block (lines 57-60). *)
Definition processImage_finally (w : World) : World :=
  w |> setIsProcessing false |> setProgress zero.

(** The [catch] block (lines 54-56), followed by [finally]. *)
Definition processImage_catch (error : jsstring) (w : World) : World :=
  w |> emit (ConsoleError (js "OCR Error:") error)
    |> emit (ToastError (js "Failed to extract text. Please try again."))
    |> processImage_finally.

(** [createWorker] has settled: line 38 up to its await. *)
Definition resume_createWorker (id : nat) (file : File) (o : Outcome unit)
    (w : World) : World * option Stage :=
  match o with
  | Fulfilled _ => (w |> emit (Recognize id file), Some AwaitRecognize)
  | Rejected error => (w |> processImage_catch error, None)
  end.

(** [worker.recognize] has settled: line 39 up to its await. *)
Definition resume_recognize (id : nat) (o : Outcome (jsstring * number))
    (w : World) : World * option Stage :=
  match o with
  | Fulfilled (text, confidence) =>
      (w |> emit (Terminate id), Some (AwaitTerminate text confidence))
  | Rejected error => (w |> processImage_catch error, None)
  end.

(** [worker.terminate] has settled: lines 41-53, then [finally]. *)
Definition resume_terminate (file : File) (text : jsstring)
    (confidence : number) (o : Outcome unit) (now : jsstring)
    (w : World) : World * option Stage :=
  match o with
  | Fulfilled _ =>
      let result := buildResult file text confidence now in
      (w |> setExtractedData (Some result)
         |> emit (ToastSuccess
                    (js "Text extracted successfully! Found "
                       ++ JSString.of_nat (wordCount result)
                       ++ js " words."))
         |> processImage_finally,
       None)
  | Rejected error => (w |> processImage_catch error, None)
  end.

(** ** The other handlers *)

(** processPDF (lines 63-65) *)
Definition processPDF (file : File) (w : World) : World :=
  w |> emit (ToastError
       (js "PDF processing requires a backend service. Please use image files for now.")).

(** copyToClipboard (lines 89-98); [o] is how [writeText] settles. *)
Definition copyToClipboard (o : Outcome unit) (w : World) : World :=
  match extractedData (app w) with
  | None => w
  | Some data =>
      let w := w |> emit (ClipboardWriteJSON data) in
      match o with
      | Fulfilled _ =>
          w |> emit (ToastSuccess (js "JSON copied to clipboard!"))
      | Rejected _ =>
          w |> emit (ToastError (js "Failed to copy to clipboard"))
      end
  end.

(** reset (lines 100-103) *)
Definition reset (w : World) : World :=
  w |> setExtractedData None |> setProgress zero.

(** The text preview (lines 225-235): the block is rendered only for a
    non-empty [text]; its paragraph holds [substring(0, 500)] and, for a
    longer text, the marker. *)
Definition previewParagraph (data : ExtractedData) : jsstring :=
  substring0 500 (text data)
  ++ (if Nat.ltb 500 (List.length (text data)) then js "..." else []).

Definition previewBlock (data : ExtractedData) : option jsstring :=
  match text data with
  | [] => None
  | _ :: _ => Some (previewParagraph data)
  end.

(** The characters of the preview on screen. *)
Definition displayedPreview (data : ExtractedData) : jsstring :=
  match previewBlock data with
  | Some p => p
  | None => []
  end.

(** ** The page (lines 105-270) *)

(** [s.split(sep)] for a separator of one code unit: the pieces between
    the occurrences of [sep]; [cur] is the piece being read, reversed. *)
Fixpoint split_on_go (sep : code_unit) (s cur : jsstring) : list jsstring :=
  match s with
  | [] => [rev cur]
  | c :: r =>
      if N.eqb c sep then rev cur :: split_on_go sep r []
      else split_on_go sep r (c :: cur)
  end.

Definition split_on (sep : code_unit) (s : jsstring) : list jsstring :=
  split_on_go sep s [].

(** The code unit of ["/"]. *)
Definition slash : code_unit := 47%N.

(** [extractedData.fileType.split('/')[1].toUpperCase()] (line 206).  The
    second piece is [undefined] when the type holds no slash, and the method
    call on it throws a TypeError: [None].  [toUpperCase] is the engine's
    case mapping of strings, taken as it is. *)
Definition fileTypeBadge (toUpperCase : jsstring -> jsstring)
    (data : ExtractedData) : option jsstring :=
  match nth_error (split_on slash (fileType data)) 1 with
  | Some subtype => Some (toUpperCase subtype)
  | None => None
  end.

(** What the results card shows (lines 167-238); [jsonOutput] is the record
    handed to [JSON.stringify(., null, 2)]. *)
Record ResultsCard := mkResultsCard {
  wordsFound : nat;
  confidenceShown : number;
  fileTypeShown : jsstring;
  fileNameShown : jsstring;
  jsonOutput : ExtractedData;
  textPreview : option jsstring
}.

(** What the page shows of the state: the highlight of the drop area
    (lines 124-128), the processing card with its percentage (lines 153-164)
    and the results card. *)
Record Page := mkPage {
  dropAreaHighlighted : bool;
  processingCard : option number;
  resultsCard : option ResultsCard
}.

(** The component's return value for a state; [isDragActive] comes from
    the drop zone.  [None]: rendering throws. *)
Definition render (toUpperCase : jsstring -> jsstring) (isDragActive : bool)
    (st : AppState) : option Page :=
  let highlighted := isDragActive || dragActive st in
  let processing := if isProcessing st then Some (progress st) else None in
  match extractedData st with
  | None =>
      Some {| dropAreaHighlighted := highlighted;
              processingCard := processing;
              resultsCard := None |}
  | Some data =>
      match fileTypeBadge toUpperCase data with
      | None => None
      | Some badge =>
          Some {| dropAreaHighlighted := highlighted;
                  processingCard := processing;
                  resultsCard :=
                    Some {| wordsFound := wordCount data;
                            confidenceShown := confidence data;
                            fileTypeShown := badge;
                            fileNameShown := fileName data;
                            jsonOutput := data;
                            textPreview := previewBlock data |} |}
      end
  end.

(** ** The running application

    The event loop runs one handler or one resumption at a time, and the
    state updates made between two awaits are applied together.  Every call
    of [processImage] is an invocation of its own; invocations are numbered
    in the order they start, and a finished one keeps its slot with no
    stage.  Nothing stops a drop while an invocation is pending: the drop
    zone is never disabled, so invocations may overlap. *)

Record Invocation := mkInvocation {
  inv_file : File;
  inv_stage : option Stage
}.

Record System := mkSystem {
  world : World;
  invocations : list Invocation
}.

Definition initialSystem : System :=
  {| world := {| app := initialState; effects := [] |}; invocations := [] |}.

Definition in_world (f : World -> World) (sys : System) : System :=
  {| world := f (world sys); invocations := invocations sys |}.

(** [processImage(file)]: a new invocation, run up to its first await. *)
Definition processImage_call (file : File) (sys : System) : System :=
  let id := List.length (invocations sys) in
  {| world := processImage_enter id (world sys);
     invocations := invocations sys
                    ++ [ {| inv_file := file;
                            inv_stage := Some AwaitCreateWorker |} ] |}.

Definition isPDF (file : File) : bool :=
  JSString.eqb (type file) (js "application/pdf").

(** onDrop (lines 67-76) *)
Definition onDrop (acceptedFiles : list File) (sys : System) : System :=
  match acceptedFiles with
  | [] => sys
  | file :: _ =>
      if isPDF file then in_world (processPDF file) sys
      else processImage_call file sys
  end.

Fixpoint set_nth {A : Type} (i : nat) (x : A) (l : list A) : list A :=
  match l, i with
  | [], _ => []
  | _ :: r, O => x :: r
  | y :: r, S j => y :: set_nth j x r
  end.

(** Resume invocation [id] with [k], when [k] accepts its stage. *)
Definition resume (id : nat)
    (k : File -> Stage -> World -> option (World * option Stage))
    (sys : System) : System :=
  match nth_error (invocations sys) id with
  | Some {| inv_file := file; inv_stage := Some stage |} =>
      match k file stage (world sys) with
      | Some (w, stage') =>
          {| world := w;
             invocations :=
               set_nth id {| inv_file := file; inv_stage := stage' |}
                 (invocations sys) |}
      | None => sys
      end
  | _ => sys
  end.

(** What can happen next: a user gesture, or the engine calling back into
    an invocation.  A settlement resumes the invocation at the await it
    answers and nowhere else.  A notification calls the [logger] that the
    invocation handed to [createWorker]; that function has no guard, so it
    sets the progress at whatever stage the invocation is, also after it
    has ended. *)
Inductive Event :=
| Drop (acceptedFiles : list File)
| DragEnter
| DragLeave
| ClickCopy (writeText : Outcome unit)
| ClickReset
| Notify (id : nat) (m : LoggerMessage.t)
| CreateWorkerSettled (id : nat) (o : Outcome unit)
| RecognizeSettled (id : nat) (o : Outcome (jsstring * number))
| TerminateSettled (id : nat) (o : Outcome unit) (now : jsstring).

Definition dispatch (ev : Event) (sys : System) : System :=
  match ev with
  | Drop acceptedFiles => onDrop acceptedFiles sys
  | DragEnter => in_world (setDragActive true) sys
  | DragLeave => in_world (setDragActive false) sys
  | ClickCopy o => in_world (copyToClipboard o) sys
  | ClickReset => in_world reset sys
  | Notify id m =>
      match nth_error (invocations sys) id with
      | Some _ => in_world (logger m) sys
      | None => sys
      end
  | CreateWorkerSettled id o =>
      resume id (fun file stage w =>
                   match stage with
                   | AwaitCreateWorker => Some (resume_createWorker id file o w)
                   | _ => None
                   end) sys
  | RecognizeSettled id o =>
      resume id (fun _ stage w =>
                   match stage with
                   | AwaitRecognize => Some (resume_recognize id o w)
                   | _ => None
                   end) sys
  | TerminateSettled id o now =>
      resume id (fun file stage w =>
                   match stage with
                   | AwaitTerminate text confidence =>
                       Some (resume_terminate file text confidence o now w)
                   | _ => None
                   end) sys
  end.

Definition run (evs : list Event) (sys : System) : System :=
  fold_left (fun s ev => dispatch ev s) evs sys.

(** *** One invocation from call to completion

    What the engine does for one invocation: the notifications it sends
    while each call is pending and how each call settles.  A call that is
    never made (after an earlier rejection) has its entries left out: no
    notification and no settlement of it ever happens. *)
Record EngineRun := mkEngineRun {
  createWorker_log : list LoggerMessage.t;
  createWorker_result : Outcome unit;
  recognize_log : list LoggerMessage.t;
  recognize_result : Outcome (jsstring * number);
  terminate_result : Outcome unit;
  now : jsstring
}.

Definition engineEvents (id : nat) (r : EngineRun) : list Event :=
  List.map (Notify id) (createWorker_log r)
  ++ CreateWorkerSettled id (createWorker_result r)
     :: match createWorker_result r with
        | Rejected _ => []
        | Fulfilled _ =>
            List.map (Notify id) (recognize_log r)
            ++ RecognizeSettled id (recognize_result r)
               :: match recognize_result r with
                  | Rejected _ => []
                  | Fulfilled _ =>
                      [TerminateSettled id (terminate_result r) (now r)]
                  end
        end.

(** [await processImage(file)] with nothing else happening meanwhile. *)
Definition processImage (file : File) (r : EngineRun) (sys : System) : System :=
  run (engineEvents (List.length (invocations sys)) r)
      (processImage_call file sys).

(** How the [try] block of an invocation ends: with the recognized text and
    confidence, or with the first rejection. *)
Definition tryOutcome (r : EngineRun) : Outcome (jsstring * number) :=
  match createWorker_result r with
  | Rejected e => Rejected e
  | Fulfilled _ =>
      match recognize_result r with
      | Rejected e => Rejected e
      | Fulfilled tc =>
          match terminate_result r with
          | Rejected e => Rejected e
          | Fulfilled _ => Fulfilled tc
          end
      end
  end.

(** The same invocation read top to bottom, as the source is written:
    the [try] block with the notifications delivered at its awaits, the
    [catch] block on the first rejection, and [finally] in either case. *)
Definition notifyAll (log : list LoggerMessage.t) (w : World) : World :=
  fold_left (fun w m => logger m w) log w.

Definition processImage_direct (id : nat) (file : File) (r : EngineRun)
    (w : World) : World :=
  let w := w |> processImage_enter id |> notifyAll (createWorker_log r) in
  match createWorker_result r with
  | Rejected error => w |> processImage_catch error
  | Fulfilled _ =>
      let w := w |> emit (Recognize id file)
                 |> notifyAll (recognize_log r) in
      match recognize_result r with
      | Rejected error => w |> processImage_catch error
      | Fulfilled (text, confidence) =>
          let w := w |> emit (Terminate id) in
          fst (resume_terminate file text confidence
                 (terminate_result r) (now r) w)
      end
  end.

(** A system whose last invocation is the one under consideration. *)
Definition focus (invs : list Invocation) (file : File)
    (stage : option Stage) (w : World) : System :=
  {| world := w;
     invocations := invs ++ [ {| inv_file := file; inv_stage := stage |} ] |}.

(** *** Traces *)

Definition pending (inv : Invocation) : bool :=
  match inv_stage inv with Some _ => true | None => false end.

Definition pendingCount (sys : System) : nat :=
  List.length (List.filter pending (invocations sys)).

Definition startsRecognition (ev : Event) : bool :=
  match ev with
  | Drop (file :: _) => negb (isPDF file)
  | _ => false
  end.

(** A trace in which no image is dropped while a recognition is pending. *)
Fixpoint serialTrace (evs : list Event) (sys : System) : bool :=
  match evs with
  | [] => true
  | ev :: rest =>
      (if startsRecognition ev then Nat.eqb (pendingCount sys) 0 else true)
      && serialTrace rest (dispatch ev sys)
  end.

(** Whether invocation [id] has been started and has not ended. *)
Definition isPending (id : nat) (sys : System) : bool :=
  match nth_error (invocations sys) id with
  | Some inv => pending inv
  | None => false
  end.

Definition notifiesPending (ev : Event) (sys : System) : bool :=
  match ev with
  | Notify id _ => isPending id sys
  | _ => true
  end.

(** A trace in which every notification reaches an invocation that is
    still pending: the engine reports progress only during its calls. *)
Fixpoint timelyTrace (evs : list Event) (sys : System) : bool :=
  match evs with
  | [] => true
  | ev :: rest =>
      notifiesPending ev sys && timelyTrace rest (dispatch ev sys)
  end.

(** The processing flag of an application that runs at most one
    recognition at a time: off when idle, on with exactly one invocation
    pending. *)
Definition flagInvariant (sys : System) : Prop :=
  (pendingCount sys = O /\ isProcessing (app (world sys)) = false)
  \/ (pendingCount sys = 1%nat /\ isProcessing (app (world sys)) = true).

(** With nothing pending the progress is at zero. *)
Definition idleProgress (sys : System) : Prop :=
  pendingCount sys = O -> progress (app (world sys)) = zero.

(** The state of an application that runs at most one recognition at a
    time: idle with the progress at zero, or processing with exactly one
    invocation pending. *)
Definition processingInvariant (sys : System) : Prop :=
  (pendingCount sys = O
   /\ isProcessing (app (world sys)) = false
   /\ progress (app (world sys)) = zero)
  \/ (pendingCount sys = 1%nat
      /\ isProcessing (app (world sys)) = true).

(** What the invariant asks of a continuation: going on keeps the
    processing flag, finishing runs the [finally] block. *)
Definition keepsFlag
    (k : File -> Stage -> World -> option (World * option Stage)) : Prop :=
  forall file stage w w' stage',
    k file stage w = Some (w', stage') ->
    match stage' with
    | Some _ => isProcessing (app w') = isProcessing (app w)
    | None => isProcessing (app w') = false /\ progress (app w') = zero
    end.

(** *** What one invocation emits *)

(** The engine calls of an invocation, in the order they are made. *)
Definition engineCalls (id : nat) (file : File) (r : EngineRun)
    : list Effect :=
  CreateWorker id
  :: match createWorker_result r with
     | Rejected _ => []
     | Fulfilled _ =>
         Recognize id file
         :: match recognize_result r with
            | Rejected _ => []
            | Fulfilled _ => [Terminate id]
            end
     end.

(** What an invocation tells the user and the console when it ends. *)
Definition invocationNotices (r : EngineRun) : list Effect :=
  match tryOutcome r with
  | Fulfilled (raw, _) =>
      [ToastSuccess (js "Text extracted successfully! Found "
                       ++ JSString.of_nat (countWords raw)
                       ++ js " words.")]
  | Rejected error =>
      [ConsoleError (js "OCR Error:") error;
       ToastError (js "Failed to extract text. Please try again.")]
  end.

(** The events that end invocation [id] when it waits at [stage]. *)
Definition finishes (ev : Event) (id : nat) (stage : Stage) : bool :=
  match ev, stage with
  | CreateWorkerSettled i (Rejected _), AwaitCreateWorker => Nat.eqb i id
  | RecognizeSettled i (Rejected _), AwaitRecognize => Nat.eqb i id
  | TerminateSettled i _ _, AwaitTerminate _ _ => Nat.eqb i id
  | _, _ => false
  end.

(** The events by which the engine calls back. *)
Definition fromEngine (ev : Event) : bool :=
  match ev with
  | Notify _ _ | CreateWorkerSettled _ _ | RecognizeSettled _ _
  | TerminateSettled _ _ _ => true
  | _ => false
  end.

(** How often the effects hold each engine call of invocation [id]. *)
Definition isCreateWorker (id : nat) (e : Effect) : bool :=
  match e with CreateWorker i => Nat.eqb i id | _ => false end.

Definition isRecognize (id : nat) (e : Effect) : bool :=
  match e with Recognize i _ => Nat.eqb i id | _ => false end.

Definition isTerminate (id : nat) (e : Effect) : bool :=
  match e with Terminate i => Nat.eqb i id | _ => false end.

Definition calls (p : Effect -> bool) (sys : System) : nat :=
  List.length (List.filter p (effects (world sys))).

Definition callsIn (p : Effect -> bool) (l : list Effect) : nat :=
  List.length (List.filter p l).

(** The [recognize] and [terminate] calls an invocation has made when it
    waits at a stage, or when it has ended. *)
Definition stageCalls (stage : option Stage) (recognized terminated : nat)
    : Prop :=
  match stage with
  | Some AwaitCreateWorker => recognized = O /\ terminated = O
  | Some AwaitRecognize => recognized = 1%nat /\ terminated = O
  | Some (AwaitTerminate _ _) => recognized = 1%nat /\ terminated = 1%nat
  | None => (terminated <= recognized)%nat /\ (recognized <= 1)%nat
  end.

(** Every invocation has called [createWorker] once and stands where its
    calls say; no call bears the number of an invocation not yet started. *)
Definition protocolInvariant (sys : System) : Prop :=
  forall id : nat,
    match nth_error (invocations sys) id with
    | Some inv =>
        calls (isCreateWorker id) sys = 1%nat
        /\ stageCalls (inv_stage inv)
             (calls (isRecognize id) sys) (calls (isTerminate id) sys)
    | None =>
        calls (isCreateWorker id) sys = O
        /\ calls (isRecognize id) sys = O
        /\ calls (isTerminate id) sys = O
    end.

(** *** Where a stored record comes from *)

(** [recognized evs sys d]: the record [d] was built by one invocation of
    the trace [evs]: from the file of a dropped image, the text and the
    confidence that [recognize] gave this invocation, and the time at which
    its [terminate] was fulfilled. *)
Definition recognized (evs : list Event) (sys : System)
    (d : ExtractedData) : Prop :=
  exists (id : nat) (inv : Invocation) (rest : list File)
         (raw : jsstring) (conf : number) (o : unit) (now : jsstring),
    nth_error (invocations sys) id = Some inv
    /\ In (Drop (inv_file inv :: rest)) evs
    /\ In (RecognizeSettled id (Fulfilled (raw, conf))) evs
    /\ In (TerminateSettled id (Fulfilled o) now) evs
    /\ d = buildResult (inv_file inv) raw conf now.

(** Every invocation was started by a drop; one that awaits [terminate]
    holds what [recognize] gave it; the stored record and every record
    written to the clipboard are recognized ones. *)
Definition clipboardInvariant (evs : list Event) (sys : System) : Prop :=
  (forall id inv,
      nth_error (invocations sys) id = Some inv ->
      exists rest, In (Drop (inv_file inv :: rest)) evs)
  /\ (forall id inv text confidence,
        nth_error (invocations sys) id = Some inv ->
        inv_stage inv = Some (AwaitTerminate text confidence) ->
        In (RecognizeSettled id (Fulfilled (text, confidence))) evs)
  /\ (forall d,
        extractedData (app (world sys)) = Some d -> recognized evs sys d)
  /\ (forall d,
        In (ClipboardWriteJSON d) (effects (world sys)) ->
        recognized evs sys d).

(** [sys'] has the invocations of [sys], each with its file. *)
Definition sameFiles (sys sys' : System) : Prop :=
  forall id inv,
    nth_error (invocations sys) id = Some inv ->
    exists inv',
      nth_error (invocations sys') id = Some inv'
      /\ inv_file inv' = inv_file inv.

(** ** Percentages

    The specification's reading of [round(p * 100)], stated over the
    integers so that it can be compared with what [Math.round] computes on
    doubles. *)

(** The integer [(-1)^s * m]. *)
Definition signed (s : bool) (m : positive) : Z :=
  if s then Z.neg m else Z.pos m.

(** [roundsTo y z]: [z] is the integer nearest to the number [y], a tie
    going towards +infinity: [z <= y + 1/2 < z + 1]. *)
Definition roundsTo (y : number) (z : Z) : bool :=
  match y with
  | S754_zero _ => z =? 0
  | S754_finite s m e =>
      if 0 <=? e then z =? signed s m * 2 ^ e
      else (2 * z * 2 ^ (- e) <=? 2 * signed s m + 2 ^ (- e))
           && (2 * signed s m + 2 ^ (- e) <? 2 * (z + 1) * 2 ^ (- e))
  | _ => false
  end.

(** [withinOneOfPercentage p z]: the integer [z] is less than one away
    from the exact percentage [100 * p]: [z - 1 < 100 * p < z + 1]. *)
Definition withinOneOfPercentage (p : number) (z : Z) : bool :=
  match p with
  | S754_zero _ => z =? 0
  | S754_finite s m e =>
      if 0 <=? e
      then (z - 1 <? 100 * signed s m * 2 ^ e)
           && (100 * signed s m * 2 ^ e <? z + 1)
      else ((z - 1) * 2 ^ (- e) <? 100 * signed s m)
           && (100 * signed s m <? (z + 1) * 2 ^ (- e))
  | _ => false
  end.

(** ** Sample inputs *)

Definition LF : string := String (ascii_of_nat 10) EmptyString.

Definition sampleImage : File :=
  {| name := js "scan.png"; type := js "image/png" |}.

Definition samplePDF : File :=
  {| name := js "paper.pdf"; type := js "application/pdf" |}.

Definition sampleNow : jsstring := js "2024-01-01T00:00:00.000Z".

(** The raw text ["Hello   World\n"]. *)
Definition helloRaw : jsstring := js ("Hello   World" ++ LF).

(** The binary64 values nearest to 0.87 and to 0.5. *)
Definition n0_87 : number := div (of_Z 87) (of_Z 100).
Definition n0_5 : number := div (of_Z 1) (of_Z 2).

(** 0.125, whose percentage 12.5 is a tie, and the binary64 value nearest
    to 0.29, whose double product with 100 is 28.999999999999996. *)
Definition n0_125 : number := div (of_Z 1) (of_Z 8).
Definition n0_29 : number := div (of_Z 29) (of_Z 100).

(** The binary64 value nearest to 0.015; it lies below 0.015. *)
Definition n0_015 : number := div (of_Z 15) (of_Z 1000).

(** [toUpperCase] on ASCII strings. *)
Definition asciiUpperCase (s : jsstring) : jsstring :=
  List.map (fun c => if ((97 <=? c) && (c <=? 122))%N then (c - 32)%N else c)
    s.

Definition loadingCore : LoggerMessage.t :=
  {| LoggerMessage.status := js "loading tesseract core";
     LoggerMessage.progress := n0_5 |}.

Definition recognizing (p : number) : LoggerMessage.t :=
  {| LoggerMessage.status := js "recognizing text";
     LoggerMessage.progress := p |}.

Definition sampleRun (raw : jsstring) (conf : number) : EngineRun :=
  {| createWorker_log :=
       [ {| LoggerMessage.status := js "loading tesseract core";
            LoggerMessage.progress := n0_5 |} ];
     createWorker_result := Fulfilled tt;
     recognize_log := [recognizing n0_5];
     recognize_result := Fulfilled (raw, conf);
     terminate_result := Fulfilled tt;
     now := sampleNow |}.

(** Two images recognized one over the other, then a click on the copy
    button. *)
Definition sampleScan : File :=
  {| name := js "page2.jpg"; type := js "image/jpeg" |}.

Definition copyTrace : list Event :=
  [ Drop [sampleImage];
    CreateWorkerSettled 0 (Fulfilled tt);
    Drop [sampleScan];
    RecognizeSettled 0 (Fulfilled (js "first", of_Z 90));
    CreateWorkerSettled 1 (Fulfilled tt);
    RecognizeSettled 1 (Fulfilled (helloRaw, of_Z 87));
    TerminateSettled 0 (Fulfilled tt) sampleNow;
    TerminateSettled 1 (Fulfilled tt) sampleNow;
    ClickCopy (Fulfilled tt) ].

(** Two overlapping invocations: the first one finishes while the second
    one is still recognizing. *)
Definition overlappingTrace : list Event :=
  [ Drop [sampleImage];
    Drop [sampleImage];
    CreateWorkerSettled 0 (Fulfilled tt);
    RecognizeSettled 0 (Fulfilled (helloRaw, of_Z 87));
    TerminateSettled 0 (Fulfilled tt) sampleNow;
    CreateWorkerSettled 1 (Fulfilled tt);
    Notify 1 (recognizing n0_5) ].

(** A single recognition, and a notification that arrives after it has
    ended. *)
Definition lateNotificationTrace : list Event :=
  [ Drop [sampleImage];
    CreateWorkerSettled 0 (Fulfilled tt);
    RecognizeSettled 0 (Fulfilled (helloRaw, of_Z 87));
    TerminateSettled 0 (Fulfilled tt) sampleNow;
    Notify 0 (recognizing n0_5) ].

(** One recognition after the other, then a reset. *)
Definition serialSampleTrace : list Event :=
  [ Drop [sampleImage];
    CreateWorkerSettled 0 (Fulfilled tt);
    Notify 0 (recognizing n0_5);
    RecognizeSettled 0 (Fulfilled (helloRaw, of_Z 87));
    TerminateSettled 0 (Fulfilled tt) sampleNow;
    Drop [samplePDF];
    Drop [sampleImage];
    Notify 1 (recognizing n0_5);
    CreateWorkerSettled 1 (Rejected (js "NetworkError"));
    ClickReset ].

Definition failingRun : EngineRun :=
  {| createWorker_log := [];
     createWorker_result := Fulfilled tt;
     recognize_log := [recognizing n0_5];
     recognize_result := Rejected (js "Error: truncated image");
     terminate_result := Fulfilled tt;
     now := sampleNow |}.

(** * Properties *)

(** ** Strings: trimming and splitting *)

Section Whitespace.

Lemma eqb_eq (s t : jsstring) : JSString.eqb s t = true <-> s = t.
Proof.
  unfold JSString.eqb.
  destruct (list_eq_dec N.eq_dec s t); split; congruence.
Qed.

Lemma nonEmpty_rev (s : jsstring) : nonEmpty (rev s) = nonEmpty s.
Proof. unfold nonEmpty. now rewrite length_rev. Qed.

(** A string is its leading whitespace followed by [trimStart] of it. *)
Lemma trimStart_decompose (s : jsstring) :
  exists w, s = w ++ trimStart s /\ blank w = true.
Proof.
  induction s as [|c r [w [Hs Hw]]]; simpl.
  - exists []. split; reflexivity.
  - destruct (isWhiteSpace c) eqn:Hc.
    + exists (c :: w). simpl. rewrite Hc, Hw. split; [now f_equal | reflexivity].
    + exists []. split; reflexivity.
Qed.

Lemma trimEnd_decompose (s : jsstring) :
  exists w, s = trimEnd s ++ w /\ blank w = true.
Proof.
  destruct (trimStart_decompose (rev s)) as [w [Hs Hw]].
  exists (rev w). split.
  - unfold trimEnd. rewrite <- rev_app_distr, <- Hs. now rewrite rev_involutive.
  - unfold blank in *. rewrite forallb_forall in *.
    intros x Hx. apply Hw. now apply in_rev.
Qed.

Lemma blank_app (s t : jsstring) : blank (s ++ t) = blank s && blank t.
Proof. apply forallb_app. Qed.

Lemma blank_trimStart (s : jsstring) : blank s = true -> trimStart s = [].
Proof.
  induction s as [|c r IH]; simpl; [reflexivity|].
  destruct (isWhiteSpace c); simpl; [exact IH | discriminate].
Qed.

Lemma blank_rev (s : jsstring) : blank (rev s) = blank s.
Proof.
  induction s as [|c r IH]; simpl; [reflexivity|].
  rewrite blank_app, IH. simpl. rewrite andb_true_r. apply andb_comm.
Qed.

Lemma trim_blank (s : jsstring) : blank s = true -> trim s = [].
Proof.
  intros H. unfold trim, trimEnd.
  now rewrite (blank_trimStart s H).
Qed.

(** Trimming removes whitespace only. *)
Lemma trim_decompose (s : jsstring) :
  exists w1 w2, s = w1 ++ trim s ++ w2 /\ blank w1 = true /\ blank w2 = true.
Proof.
  destruct (trimStart_decompose s) as [w1 [H1 B1]].
  destruct (trimEnd_decompose (trimStart s)) as [w2 [H2 B2]].
  exists w1, w2. unfold trim. rewrite <- H2. auto.
Qed.

Lemma trim_nil_blank (s : jsstring) : trim s = [] <-> blank s = true.
Proof.
  split; [|apply trim_blank].
  intros H. destruct (trim_decompose s) as [w1 [w2 [Hs [B1 B2]]]].
  rewrite Hs, H. simpl. rewrite blank_app, B1, B2. reflexivity.
Qed.

(** *** Counting tokens *)

Lemma spec_tokens_blank (b : bool) (w : jsstring) :
  blank w = true -> spec_tokens_from b w = O.
Proof.
  revert b. induction w as [|c r IH]; intros b; simpl; [reflexivity|].
  destruct (isWhiteSpace c); simpl; [apply IH | discriminate].
Qed.

Lemma spec_tokens_app_blank (b : bool) (s w : jsstring) :
  blank w = true -> spec_tokens_from b (s ++ w) = spec_tokens_from b s.
Proof.
  intros Hw. revert b. induction s as [|c r IH]; intros b; simpl.
  - now apply spec_tokens_blank.
  - destruct (isWhiteSpace c); now rewrite IH.
Qed.

Lemma spec_tokens_blank_app (w s : jsstring) :
  blank w = true -> spec_tokens_from true (w ++ s) = spec_tokens_from true s.
Proof.
  induction w as [|c r IH]; simpl; [reflexivity|].
  destruct (isWhiteSpace c); simpl; [exact IH | discriminate].
Qed.

Lemma spec_tokenCount_trim (s : jsstring) :
  spec_tokenCount (trim s) = spec_tokenCount s.
Proof.
  destruct (trim_decompose s) as [w1 [w2 [Hs [B1 B2]]]].
  unfold spec_tokenCount. rewrite Hs at 2.
  rewrite spec_tokens_blank_app by exact B1.
  now rewrite spec_tokens_app_blank.
Qed.

Lemma spec_tokens_zero (s : jsstring) :
  spec_tokenCount s = O <-> blank s = true.
Proof.
  unfold spec_tokenCount. induction s as [|c r IH]; simpl.
  - split; reflexivity.
  - destruct (isWhiteSpace c); simpl; [exact IH|].
    split; discriminate.
Qed.

(** The pieces [split] returns, once the empty ones are filtered out, are
    as many as the tokens: the piece in progress counts when it already
    holds a code unit. *)
Lemma split_go_count (s cur : jsstring) (in_sep : bool) :
  (in_sep = true -> cur = []) ->
  List.length (List.filter nonEmpty (split_go s cur in_sep))
  = ((if nonEmpty cur then 1 else 0)
     + spec_tokens_from (negb (nonEmpty cur)) s)%nat.
Proof.
  revert cur in_sep. induction s as [|c r IH]; intros cur in_sep Hsep; simpl.
  - rewrite nonEmpty_rev. destruct (nonEmpty cur); reflexivity.
  - destruct (isWhiteSpace c).
    + destruct in_sep.
      * rewrite (Hsep eq_refl). apply (IH [] true). reflexivity.
      * simpl. rewrite nonEmpty_rev.
        destruct (nonEmpty cur); simpl;
          rewrite (IH [] true) by reflexivity; reflexivity.
    + rewrite (IH (c :: cur) false) by discriminate. simpl.
      destruct (nonEmpty cur); reflexivity.
Qed.

Lemma countWords_tokens (raw : jsstring) :
  countWords raw = spec_tokenCount (trim raw).
Proof.
  unfold countWords, split_whitespace.
  apply (split_go_count (trim raw) [] false). discriminate.
Qed.

End Whitespace.

(** ** Numbers: rounding *)

Section Rounding.

Lemma digits2_pos_bound (m : positive) :
  Z.pos m < 2 ^ Z.pos (digits2_pos m).
Proof.
  induction m as [m IH | m IH |]; simpl digits2_pos.
  - rewrite Pos2Z.inj_succ, Z.pow_succ_r by lia. lia.
  - rewrite Pos2Z.inj_succ, Z.pow_succ_r by lia. lia.
  - reflexivity.
Qed.

(** The mantissa of a binary64 value has at most 53 bits. *)
Lemma binary64_mantissa (s : bool) (m : positive) (e : Z) :
  is_binary64 (S754_finite s m e) = true -> Z.pos m < 2 ^ 53.
Proof.
  unfold is_binary64, valid_binary, bounded, canonical_mantissa, fexp.
  intros H. apply andb_prop in H. destruct H as [H _].
  apply Z.eqb_eq in H.
  assert (Hd : Z.pos (digits2_pos m) <= 53).
  { unfold JSNumber.prec in H. lia. }
  apply Z.lt_le_trans with (1 := digits2_pos_bound m).
  apply Z.pow_le_mono_r; lia.
Qed.

Lemma leb_zero_finite (s : bool) (m : positive) (e : Z) :
  leb zero (S754_finite s m e) = true -> s = false.
Proof. destruct s; [discriminate | reflexivity]. Qed.

Lemma of_Z_1 : of_Z 1 = S754_finite false 4503599627370496 (-52).
Proof. vm_compute. reflexivity. Qed.

Lemma pow2_52 : 2 ^ 52 = 4503599627370496.
Proof. vm_compute. reflexivity. Qed.

(** Comparing two positive finite values compares exponents first, then
    mantissas. *)
Lemma leb_finite_finite (m n : positive) (e k : Z) :
  leb (S754_finite false m e) (S754_finite false n k) = true ->
  e < k \/ (e = k /\ Z.pos m <= Z.pos n).
Proof.
  unfold leb, SFleb, SFcompare.
  destruct (Z.compare_spec e k) as [He | He | He].
  - intros H. right. split; [exact He|].
    rewrite Pos.compare_cont_spec in H. unfold Pos.switch_Eq in H.
    apply Pos2Z.pos_le_pos. unfold Pos.le. intros Hgt.
    rewrite Hgt in H. discriminate.
  - intros _. left. exact He.
  - discriminate.
Qed.

Lemma leb_finite_one (m : positive) (e : Z) :
  leb (S754_finite false m e) (of_Z 1) = true ->
  e < -52 \/ (e = -52 /\ Z.pos m <= 2 ^ 52).
Proof.
  rewrite of_Z_1, pow2_52. apply leb_finite_finite.
Qed.

(** On a non-negative binary64 value that is at most 1, rounding to the
    nearest integer gives 0 or 1. *)
Lemma nearest_integer_unit (m : positive) (e : Z) :
  Z.pos m < 2 ^ 53 ->
  e < -52 \/ (e = -52 /\ Z.pos m <= 2 ^ 52) ->
  nearest_integer false m e = 0 \/ nearest_integer false m e = 1.
Proof.
  intros Hm He. unfold nearest_integer.
  assert (Hneg : e < 0) by lia.
  rewrite Z.shiftr_div_pow2, Z.shiftl_mul_pow2 by lia.
  rewrite Z.mul_1_l.
  set (h := 2 ^ (- e - 1)).
  assert (Hh : 0 < h) by (apply Z.pow_pos_nonneg; lia).
  assert (Hp : 2 ^ (- e) = 2 * h).
  { unfold h. rewrite <- Z.pow_succ_r by lia. f_equal. lia. }
  rewrite Hp.
  assert (Hb : Z.pos m + h < 2 * (2 * h)).
  { destruct He as [He | [He Hle]].
    - assert (2 ^ 53 <= 2 ^ (- e)) by (apply Z.pow_le_mono_r; lia). lia.
    - subst e. change (- -52 - 1) with 51 in h.
      assert (2 ^ 52 = 2 * h) by (unfold h; reflexivity). lia. }
  assert (0 <= (Z.pos m + h) / (2 * h) < 2).
  { split.
    - apply Z.div_pos; lia.
    - apply Z.div_lt_upper_bound; lia. }
  lia.
Qed.

Lemma Math_round_unit (c : number) :
  is_binary64 c = true ->
  leb zero c = true ->
  leb c (of_Z 1) = true ->
  integer_value (Math_round c) = Some 0
  \/ integer_value (Math_round c) = Some 1.
Proof.
  intros Hv H0 H1. destruct c as [s | s | | s m e].
  - left. reflexivity.
  - rewrite of_Z_1 in H1. destruct s; discriminate.
  - discriminate.
  - assert (s = false) by (eapply leb_zero_finite; eassumption). subst s.
    apply binary64_mantissa in Hv. apply leb_finite_one in H1.
    unfold Math_round.
    destruct (Z.leb_spec 0 e) as [He | _]; [lia|].
    destruct (nearest_integer_unit m e Hv H1) as [Hz | Hz]; rewrite Hz.
    + left. reflexivity.
    + right. vm_compute. reflexivity.
Qed.

(** [Math.round] on a few values: ties go up, a result of zero keeps the
    sign, and the literal 0.87 is the expected double. *)
Lemma n0_87_bits : n0_87 = S754_finite false 7836263351624663 (-53).
Proof. vm_compute. reflexivity. Qed.

Lemma Math_round_examples :
  Math_round (div (of_Z 5) (of_Z 2)) = of_Z 3
  /\ Math_round (div (of_Z (-5)) (of_Z 2)) = of_Z (-2)
  /\ Math_round (div (of_Z (-1)) (of_Z 2)) = S754_zero true
  /\ Math_round (div (of_Z 49) (of_Z 100)) = S754_zero false
  /\ Math_round n0_87 = of_Z 1
  /\ Math_round (of_Z 87) = of_Z 87
  /\ Math_round (mul n0_87 (of_Z 100)) = of_Z 87
  /\ Math_round S754_nan = S754_nan.
Proof. vm_compute. repeat split; reflexivity. Qed.

End Rounding.

(** ** One invocation, run to completion *)

Section Invocation.

Lemma set_nth_last {A : Type} (l : list A) (x y : A) :
  set_nth (List.length l) y (l ++ [x]) = l ++ [y].
Proof. induction l as [|a l IH]; simpl; [reflexivity | now rewrite IH]. Qed.

Lemma nth_error_last {A : Type} (l : list A) (x : A) :
  nth_error (l ++ [x]) (List.length l) = Some x.
Proof. induction l as [|a l IH]; simpl; [reflexivity | exact IH]. Qed.

Lemma resume_focus_pending invs file stage w k :
  resume (List.length invs) k (focus invs file (Some stage) w)
  = match k file stage w with
    | Some (w', stage') => focus invs file stage' w'
    | None => focus invs file (Some stage) w
    end.
Proof.
  unfold resume, focus. simpl. rewrite nth_error_last.
  destruct (k file stage w) as [[w' stage']|]; [|reflexivity].
  now rewrite set_nth_last.
Qed.

Lemma resume_focus_done invs file w k :
  resume (List.length invs) k (focus invs file None w)
  = focus invs file None w.
Proof. unfold resume, focus. simpl. now rewrite nth_error_last. Qed.

Lemma run_app (evs1 evs2 : list Event) (sys : System) :
  run (evs1 ++ evs2) sys = run evs2 (run evs1 sys).
Proof. apply fold_left_app. Qed.

Lemma run_single (ev : Event) (sys : System) :
  run [ev] sys = dispatch ev sys.
Proof. reflexivity. Qed.

Lemma dispatch_notify invs file stage w (m : LoggerMessage.t) :
  dispatch (Notify (List.length invs) m) (focus invs file stage w)
  = focus invs file stage (logger m w).
Proof.
  unfold dispatch, focus. cbn [invocations]. now rewrite nth_error_last.
Qed.

Lemma run_notify invs file stage w (log : list LoggerMessage.t) :
  run (List.map (Notify (List.length invs)) log) (focus invs file stage w)
  = focus invs file stage (notifyAll log w).
Proof.
  revert w. induction log as [|m log IH]; intros w; [reflexivity|].
  cbn [List.map run fold_left]. rewrite dispatch_notify. apply IH.
Qed.

Lemma run_cons (ev : Event) (evs : list Event) (sys : System) :
  run (ev :: evs) sys = run evs (dispatch ev sys).
Proof. reflexivity. Qed.

Lemma processImage_call_focus (file : File) (sys : System) :
  processImage_call file sys
  = focus (invocations sys) file (Some AwaitCreateWorker)
      (processImage_enter (List.length (invocations sys)) (world sys)).
Proof. reflexivity. Qed.

Lemma dispatch_createWorker invs file w o :
  dispatch (CreateWorkerSettled (List.length invs) o)
    (focus invs file (Some AwaitCreateWorker) w)
  = focus invs file
      (snd (resume_createWorker (List.length invs) file o w))
      (fst (resume_createWorker (List.length invs) file o w)).
Proof.
  unfold dispatch. rewrite resume_focus_pending.
  now destruct (resume_createWorker _ _ _ _).
Qed.

Lemma dispatch_recognize invs file w o :
  dispatch (RecognizeSettled (List.length invs) o)
    (focus invs file (Some AwaitRecognize) w)
  = focus invs file
      (snd (resume_recognize (List.length invs) o w))
      (fst (resume_recognize (List.length invs) o w)).
Proof.
  unfold dispatch. rewrite resume_focus_pending.
  now destruct (resume_recognize _ _ _).
Qed.

Lemma dispatch_terminate invs file text confidence w o now :
  dispatch (TerminateSettled (List.length invs) o now)
    (focus invs file (Some (AwaitTerminate text confidence)) w)
  = focus invs file None
      (fst (resume_terminate file text confidence o now w)).
Proof.
  unfold dispatch. rewrite resume_focus_pending.
  unfold resume_terminate. now destruct o.
Qed.

(** The event-driven run of one invocation computes what the body says
    when read top to bottom, and leaves the invocation finished. *)
Lemma processImage_is_direct (file : File) (r : EngineRun) (sys : System) :
  processImage file r sys
  = focus (invocations sys) file None
      (processImage_direct (List.length (invocations sys)) file r
         (world sys)).
Proof.
  unfold processImage, engineEvents, processImage_direct.
  rewrite processImage_call_focus.
  set (invs := invocations sys).
  rewrite run_app, run_notify, run_cons, dispatch_createWorker.
  destruct (createWorker_result r) as [[]|e];
    cbn [resume_createWorker fst snd]; [|reflexivity].
  rewrite run_app, run_notify, run_cons, dispatch_recognize.
  destruct (recognize_result r) as [[text confidence]|e];
    cbn [resume_recognize fst snd]; [|reflexivity].
  rewrite run_single. apply dispatch_terminate.
Qed.

(** The logger touches nothing but [progress]. *)
Lemma logger_frame (m : LoggerMessage.t) (w : World) :
  isProcessing (app (logger m w)) = isProcessing (app w)
  /\ extractedData (app (logger m w)) = extractedData (app w)
  /\ dragActive (app (logger m w)) = dragActive (app w)
  /\ effects (logger m w) = effects w.
Proof.
  unfold logger.
  destruct (JSString.eqb _ _); simpl; repeat split; reflexivity.
Qed.

Lemma notifyAll_frame (log : list LoggerMessage.t) (w : World) :
  isProcessing (app (notifyAll log w)) = isProcessing (app w)
  /\ extractedData (app (notifyAll log w)) = extractedData (app w)
  /\ dragActive (app (notifyAll log w)) = dragActive (app w)
  /\ effects (notifyAll log w) = effects w.
Proof.
  revert w. induction log as [|m log IH]; intros w; simpl.
  - repeat split; reflexivity.
  - destruct (IH (logger m w)) as [H1 [H2 [H3 H4]]].
    destruct (logger_frame m w) as [L1 [L2 [L3 L4]]].
    unfold notifyAll in *. simpl.
    rewrite H1, H2, H3, H4. auto.
Qed.

Lemma notifyAll_extractedData (log : list LoggerMessage.t) (w : World) :
  extractedData (app (notifyAll log w)) = extractedData (app w).
Proof. apply notifyAll_frame. Qed.

Lemma notifyAll_effects (log : list LoggerMessage.t) (w : World) :
  effects (notifyAll log w) = effects w.
Proof. apply notifyAll_frame. Qed.

Lemma notifyAll_isProcessing (log : list LoggerMessage.t) (w : World) :
  isProcessing (app (notifyAll log w)) = isProcessing (app w).
Proof. apply notifyAll_frame. Qed.

(** Whatever the engine does, a finished invocation leaves the processing
    flag off and the progress at zero: [finally] runs on every path. *)
Lemma processImage_ends_idle (file : File) (r : EngineRun) (sys : System) :
  isProcessing (app (world (processImage file r sys))) = false
  /\ progress (app (world (processImage file r sys))) = zero.
Proof.
  rewrite processImage_is_direct. cbn [focus world].
  unfold processImage_direct.
  destruct (createWorker_result r) as [[]|e1]; [|split; reflexivity].
  destruct (recognize_result r) as [[text confidence]|e2];
    [|split; reflexivity].
  destruct (terminate_result r) as [[]|e3]; split; reflexivity.
Qed.

(** A fulfilled [try] block stores the built result. *)
Lemma processImage_fulfilled file r sys raw conf :
  tryOutcome r = Fulfilled (raw, conf) ->
  extractedData (app (world (processImage file r sys)))
  = Some (buildResult file raw conf (now r)).
Proof.
  intros H. rewrite processImage_is_direct. simpl.
  unfold tryOutcome, processImage_direct in *.
  destruct (createWorker_result r) as [[]|e]; [|discriminate].
  destruct (recognize_result r) as [[text confidence]|e]; [|discriminate].
  destruct (terminate_result r) as [[]|e]; [|discriminate].
  injection H as -> ->. reflexivity.
Qed.

End Invocation.

(** ** The result builder *)

Section ResultBuilder.

(** C3. For every raw text the built result's [wordCount] is the number
    of whitespace-delimited non-empty tokens of its trimmed [text]; it is
    zero exactly when that text is empty or whitespace-only, which is
    exactly when the raw text is; the raw text [""] gives [wordCount = 0]
    and [text = ""]. *)
Theorem wordCount_counts_tokens (file : File) (raw : jsstring)
    (conf : number) (now : jsstring) :
  wordCount (buildResult file raw conf now)
    = spec_tokenCount (text (buildResult file raw conf now))
  /\ (wordCount (buildResult file raw conf now) = O
      <-> blank (text (buildResult file raw conf now)) = true)
  /\ (wordCount (buildResult file raw conf now) = O
      <-> blank raw = true)
  /\ wordCount (buildResult file [] conf now) = O
  /\ text (buildResult file [] conf now) = [].
Proof.
  cbn [buildResult wordCount text].
  rewrite countWords_tokens.
  split; [reflexivity|]. split; [apply spec_tokens_zero|].
  split; [|split; reflexivity].
  rewrite spec_tokenCount_trim. apply spec_tokens_zero.
Qed.

(** The trimmed text is empty exactly when the raw text is blank, so a
    result with [wordCount = 0] always has [text = ""]. *)
Lemma wordCount_zero_text_empty (file : File) (raw : jsstring)
    (conf : number) (now : jsstring) :
  wordCount (buildResult file raw conf now) = O
  <-> text (buildResult file raw conf now) = [].
Proof.
  cbn [buildResult wordCount text].
  rewrite countWords_tokens, spec_tokenCount_trim, spec_tokens_zero.
  symmetry. apply trim_nil_blank.
Qed.

(** C6. For a binary64 engine confidence [c] with [0 <= c <= 1] the
    result's [confidence] is an integer between 0 and 100. *)
Theorem confidence_in_0_100 (file : File) (raw : jsstring) (c : number)
    (now : jsstring) :
  is_binary64 c = true ->
  leb zero c = true ->
  leb c (of_Z 1) = true ->
  exists z : Z,
    integer_value (confidence (buildResult file raw c now)) = Some z
    /\ 0 <= z <= 100.
Proof.
  intros Hv H0 H1. cbn [buildResult confidence].
  destruct (Math_round_unit c Hv H0 H1) as [H | H]; rewrite H.
  - exists 0. split; [reflexivity | lia].
  - exists 1. split; [reflexivity | lia].
Qed.

Lemma confidence_in_0_100_witness :
  is_binary64 n0_87 = true
  /\ leb zero n0_87 = true
  /\ leb n0_87 (of_Z 1) = true
  /\ exists z : Z,
       integer_value
         (confidence (buildResult sampleImage helloRaw n0_87 sampleNow))
       = Some z
       /\ 0 <= z <= 100.
Proof.
  split; [vm_compute; reflexivity|].
  split; [vm_compute; reflexivity|].
  split; [vm_compute; reflexivity|].
  apply (confidence_in_0_100 sampleImage helloRaw n0_87 sampleNow);
    vm_compute; reflexivity.
Defined.

(** On the unit interval the rounded confidence is in fact 0 or 1: the
    builder rounds the engine's value as it is. *)
Lemma confidence_unit_interval (file : File) (raw : jsstring) (c : number)
    (now : jsstring) :
  is_binary64 c = true ->
  leb zero c = true ->
  leb c (of_Z 1) = true ->
  integer_value (confidence (buildResult file raw c now)) = Some 0
  \/ integer_value (confidence (buildResult file raw c now)) = Some 1.
Proof. intros Hv H0 H1. now apply Math_round_unit. Qed.

(** A confidence already on the 0-100 scale is kept. *)
Lemma confidence_of_percentage (file : File) (raw now : jsstring) :
  integer_value (confidence (buildResult file raw (of_Z 87) now)) = Some 87.
Proof. vm_compute. reflexivity. Qed.

(** C1, as stated, fails: with raw text ["Hello   World\n"] and raw
    engine confidence 0.87 the stored result does not have
    [confidence = 87]. *)
Lemma hello_world_confidence_not_87 :
  ~ (exists d : ExtractedData,
       extractedData
         (app (world (processImage sampleImage (sampleRun helloRaw n0_87)
                        initialSystem)))
       = Some d
       /\ text d = js "Hello   World"
       /\ integer_value (confidence d) = Some 87
       /\ wordCount d = 2%nat).
Proof.
  intros [d [Hd [_ [Hc _]]]].
  rewrite (processImage_fulfilled _ _ _ helloRaw n0_87) in Hd
    by reflexivity.
  injection Hd as <-. vm_compute in Hc. discriminate.
Qed.

(** C1, amended. When recognition yields raw text ["Hello   World\n"]
    and raw engine confidence 0.87, the stored result has
    [text = "Hello   World"], [confidence = 1] (the engine's value
    rounded, not scaled by 100) and [wordCount = 2]. *)
Theorem hello_world_result (file : File) (r : EngineRun) (sys : System) :
  tryOutcome r = Fulfilled (helloRaw, n0_87) ->
  exists d : ExtractedData,
    extractedData (app (world (processImage file r sys))) = Some d
    /\ text d = js "Hello   World"
    /\ integer_value (confidence d) = Some 1
    /\ wordCount d = 2%nat.
Proof.
  intros H. exists (buildResult file helloRaw n0_87 (now r)).
  split; [now apply processImage_fulfilled|].
  repeat split; vm_compute; reflexivity.
Qed.

Lemma hello_world_result_witness :
  tryOutcome (sampleRun helloRaw n0_87) = Fulfilled (helloRaw, n0_87)
  /\ exists d : ExtractedData,
       extractedData
         (app (world (processImage sampleImage (sampleRun helloRaw n0_87)
                        initialSystem)))
       = Some d
       /\ text d = js "Hello   World"
       /\ integer_value (confidence d) = Some 1
       /\ wordCount d = 2%nat.
Proof.
  split; [reflexivity|].
  apply (hello_world_result sampleImage (sampleRun helloRaw n0_87)
           initialSystem).
  reflexivity.
Defined.

End ResultBuilder.

(** ** The double product [p * 100] and its rounding *)

Section Percentage.

Lemma of_Z_100 : of_Z 100 = S754_finite false 7036874417766400 (-46).
Proof. vm_compute. reflexivity. Qed.

Lemma hundred_pow2_46 : 100 * 2 ^ 46 = 7036874417766400.
Proof. vm_compute. reflexivity. Qed.

Lemma integer_value_small (z : Z) :
  0 <= z <= 100 -> integer_value (of_Z z) = Some z.
Proof.
  intros Hz.
  assert (Hall : forallb
                   (fun n => match integer_value (of_Z (Z.of_nat n)) with
                             | Some v => v =? Z.of_nat n
                             | None => false
                             end)
                   (seq 0 101) = true)
    by (vm_compute; reflexivity).
  rewrite forallb_forall in Hall.
  specialize (Hall (Z.to_nat z)).
  rewrite Z2Nat.id in Hall by lia.
  assert (Hin : In (Z.to_nat z) (seq 0 101)) by (apply in_seq; lia).
  specialize (Hall Hin).
  destruct (integer_value (of_Z z)) as [v|]; [|discriminate].
  apply Z.eqb_eq in Hall. now subst v.
Qed.

Lemma fexp_eq (x : Z) : fexp prec emax x = Z.max (x - 53) (-1074).
Proof. reflexivity. Qed.

Lemma shr_1_m (mrs : shr_record) :
  0 <= shr_m mrs -> shr_m (shr_1 mrs) = shr_m mrs / 2.
Proof.
  destruct mrs as [m r s]. cbn [shr_m]. intros Hm.
  destruct m as [|p|p]; [reflexivity | | lia].
  destruct p as [p|p|]; cbn [shr_1 shr_m].
  - rewrite (Pos2Z.inj_xI p). apply Z.div_unique with (r := 1); lia.
  - rewrite (Pos2Z.inj_xO p). apply Z.div_unique with (r := 0); lia.
  - reflexivity.
Qed.

Lemma pow2_double (k : Z) : 0 <= k -> 2 ^ (2 * k) = 2 ^ k * 2 ^ k.
Proof.
  intros Hk. replace (2 * k) with (k + k) by lia. now apply Z.pow_add_r.
Qed.

Lemma pow2_xO (n : positive) : 2 ^ Z.pos n~0 = 2 ^ Z.pos n * 2 ^ Z.pos n.
Proof. rewrite (Pos2Z.inj_xO n). apply pow2_double. lia. Qed.

Lemma pow2_xI (n : positive) :
  2 ^ Z.pos n~1 = 2 * (2 ^ Z.pos n * 2 ^ Z.pos n).
Proof.
  rewrite (Pos2Z.inj_xI n), Z.pow_add_r, pow2_double by lia.
  rewrite Z.pow_1_r. ring.
Qed.

Lemma iter_shr_m (n : positive) (mrs : shr_record) :
  0 <= shr_m mrs ->
  shr_m (iter_pos shr_1 n mrs) = shr_m mrs / 2 ^ Z.pos n.
Proof.
  revert mrs. induction n as [n IH | n IH |]; intros mrs Hm; cbn [iter_pos].
  - assert (H1 : 0 <= shr_m (shr_1 mrs))
      by (rewrite shr_1_m by exact Hm; apply Z.div_pos; lia).
    assert (Hp : 0 < 2 ^ Z.pos n) by (apply Z.pow_pos_nonneg; lia).
    assert (H2 : 0 <= shr_m (iter_pos shr_1 n (shr_1 mrs)))
      by (rewrite IH by exact H1; apply Z.div_pos; lia).
    rewrite IH by exact H2. rewrite IH by exact H1.
    rewrite shr_1_m by exact Hm.
    rewrite !Z.div_div by lia.
    rewrite pow2_xI. f_equal; ring.
  - assert (Hp : 0 < 2 ^ Z.pos n) by (apply Z.pow_pos_nonneg; lia).
    assert (H2 : 0 <= shr_m (iter_pos shr_1 n mrs))
      by (rewrite IH by exact Hm; apply Z.div_pos; lia).
    rewrite IH by exact H2. rewrite IH by exact Hm.
    rewrite Z.div_div by lia.
    now rewrite pow2_xO.
  - rewrite shr_1_m by exact Hm. reflexivity.
Qed.

Lemma shr_spec (mrs : shr_record) (e n : Z) :
  0 <= shr_m mrs ->
  shr_m (fst (shr mrs e n)) = shr_m mrs / 2 ^ Z.max n 0
  /\ snd (shr mrs e n) = e + Z.max n 0.
Proof.
  intros Hm. destruct n as [|p|p]; cbn [shr fst snd].
  - change (Z.max 0 0) with 0. rewrite Z.div_1_r. split; [reflexivity | lia].
  - rewrite iter_shr_m by exact Hm.
    replace (Z.max (Z.pos p) 0) with (Z.pos p) by lia. split; reflexivity.
  - replace (Z.max (Z.neg p) 0) with 0 by lia.
    change (2 ^ 0) with 1. rewrite Z.div_1_r. split; [reflexivity | lia].
Qed.

Lemma round_nearest_even_bound (m : Z) (l : location) :
  m <= round_nearest_even m l <= m + 1.
Proof.
  destruct l as [|[| |]]; cbn [round_nearest_even]; try lia.
  destruct (Z.even m); lia.
Qed.

Lemma digits2_pos_lower (m : positive) :
  2 ^ (Z.pos (digits2_pos m) - 1) <= Z.pos m.
Proof.
  induction m as [m IH | m IH |]; cbn [digits2_pos].
  - rewrite Pos2Z.inj_succ, (Pos2Z.inj_xI m).
    replace (Z.succ (Z.pos (digits2_pos m)) - 1)
      with (Z.succ (Z.pos (digits2_pos m) - 1)) by lia.
    rewrite Z.pow_succ_r by lia. lia.
  - rewrite Pos2Z.inj_succ, (Pos2Z.inj_xO m).
    replace (Z.succ (Z.pos (digits2_pos m)) - 1)
      with (Z.succ (Z.pos (digits2_pos m) - 1)) by lia.
    rewrite Z.pow_succ_r by lia. lia.
  - reflexivity.
Qed.

Lemma pow2_7 (k : Z) : 0 <= k -> 2 ^ (7 + k) = 128 * 2 ^ k.
Proof. intros Hk. rewrite Z.pow_add_r by lia. reflexivity. Qed.

Lemma fexp_percent (m e : Z) :
  0 <= m -> e <= -46 -> m <= 100 * 2 ^ (- e) ->
  fexp prec emax (Zdigits2 m + e) <= -46.
Proof.
  intros Hm He Hb. rewrite fexp_eq.
  destruct m as [|p|p]; [cbn [Zdigits2]; lia | | lia].
  cbn [Zdigits2].
  assert (Hlow := digits2_pos_lower p).
  assert (Hpos : 0 < 2 ^ (- e)) by (apply Z.pow_pos_nonneg; lia).
  assert (Hlt : 2 ^ (Z.pos (digits2_pos p) - 1) < 2 ^ (7 + - e)).
  { rewrite pow2_7 by lia. lia. }
  apply Z.pow_lt_mono_r_iff in Hlt; lia.
Qed.

Lemma shr_fexp_spec (m e : Z) :
  0 <= m ->
  let n := Z.max (fexp prec emax (Zdigits2 m + e) - e) 0 in
  shr_m (fst (shr_fexp prec emax m e loc_Exact)) = m / 2 ^ n
  /\ snd (shr_fexp prec emax m e loc_Exact) = e + n.
Proof.
  intros Hm n. unfold shr_fexp. apply shr_spec. exact Hm.
Qed.

Lemma round_aux_percent (mx : positive) (ex : Z) :
  ex <= -46 ->
  Z.pos mx < 100 * 2 ^ (- ex) ->
  exists m3 e3 : Z,
    binary_round_aux prec emax false (Z.pos mx) ex loc_Exact
    = match m3 with
      | Z0 => S754_zero false
      | Z.pos m => S754_finite false m e3
      | Z.neg _ => S754_nan
      end
    /\ 0 <= m3
    /\ ex <= e3 <= -46
    /\ m3 <= 100 * 2 ^ (- e3)
    /\ (m3 - 1) * 2 ^ (e3 - ex) <= Z.pos mx < (m3 + 1) * 2 ^ (e3 - ex).
Proof.
  intros Hex HM. unfold binary_round_aux.
  (* the first shift *)
  assert (HM0 : 0 <= Z.pos mx) by lia.
  destruct (shr_fexp_spec (Z.pos mx) ex HM0) as [Hm1 He1].
  assert (Hf1 := fexp_percent (Z.pos mx) ex HM0 Hex (Z.lt_le_incl _ _ HM)).
  set (n1 := Z.max (fexp prec emax (Zdigits2 (Z.pos mx) + ex) - ex) 0) in *.
  destruct (shr_fexp prec emax (Z.pos mx) ex loc_Exact) as [mrs1 e1].
  cbn [fst snd] in Hm1, He1.
  assert (Hn1 : 0 <= n1) by (unfold n1; lia).
  assert (He1b : ex <= e1 <= -46) by (unfold n1 in *; lia).
  assert (Hp1 : 0 < 2 ^ n1) by (apply Z.pow_pos_nonneg; lia).
  assert (Hsplit1 : 2 ^ (- ex) = 2 ^ (- e1) * 2 ^ n1).
  { rewrite <- Z.pow_add_r by lia. f_equal. lia. }
  assert (Hm1lo : shr_m mrs1 * 2 ^ n1 <= Z.pos mx).
  { rewrite Hm1, Z.mul_comm. apply Z.mul_div_le. exact Hp1. }
  assert (Hm1hi : Z.pos mx < (shr_m mrs1 + 1) * 2 ^ n1).
  { rewrite Hm1, Z.mul_comm. apply Z.mul_succ_div_gt. exact Hp1. }
  assert (Hm1pos : 0 <= shr_m mrs1) by (rewrite Hm1; apply Z.div_pos; lia).
  assert (Hm1b : shr_m mrs1 < 100 * 2 ^ (- e1)).
  { rewrite Hm1. apply Z.div_lt_upper_bound; [exact Hp1|].
    rewrite Hsplit1 in HM. lia. }
  (* rounding *)
  pose proof (round_nearest_even_bound (shr_m mrs1) (loc_of_shr_record mrs1))
    as Hr.
  set (m2 := round_nearest_even (shr_m mrs1) (loc_of_shr_record mrs1)) in *.
  assert (Hm2pos : 0 <= m2) by lia.
  assert (Hm2b : m2 <= 100 * 2 ^ (- e1)) by lia.
  (* the second shift *)
  destruct (shr_fexp_spec m2 e1 Hm2pos) as [Hm3 He3].
  assert (Hf2 := fexp_percent m2 e1 Hm2pos (proj2 He1b) Hm2b).
  set (n2 := Z.max (fexp prec emax (Zdigits2 m2 + e1) - e1) 0) in *.
  destruct (shr_fexp prec emax m2 e1 loc_Exact) as [mrs3 e3].
  cbn [fst snd] in Hm3, He3.
  assert (Hn2 : 0 <= n2) by (unfold n2; lia).
  assert (He3b : e1 <= e3 <= -46) by (unfold n2 in *; lia).
  assert (Hp2 : 0 < 2 ^ n2) by (apply Z.pow_pos_nonneg; lia).
  assert (Hsplit2 : 2 ^ (- e1) = 2 ^ (- e3) * 2 ^ n2).
  { rewrite <- Z.pow_add_r by lia. f_equal. lia. }
  assert (Hm3lo : shr_m mrs3 * 2 ^ n2 <= m2).
  { rewrite Hm3, Z.mul_comm. apply Z.mul_div_le. exact Hp2. }
  assert (Hm3hi : m2 < (shr_m mrs3 + 1) * 2 ^ n2).
  { rewrite Hm3, Z.mul_comm. apply Z.mul_succ_div_gt. exact Hp2. }
  assert (Hm3pos : 0 <= shr_m mrs3) by (rewrite Hm3; apply Z.div_pos; lia).
  assert (Hm3b : shr_m mrs3 <= 100 * 2 ^ (- e3)).
  { rewrite Hm3. apply Z.div_le_upper_bound; [exact Hp2|].
    rewrite Hsplit2 in Hm2b. lia. }
  assert (Hsplit3 : 2 ^ (e3 - ex) = 2 ^ n2 * 2 ^ n1).
  { rewrite <- Z.pow_add_r by lia. f_equal. lia. }
  exists (shr_m mrs3), e3.
  split.
  { destruct (shr_m mrs3) as [|p|p]; [reflexivity | | reflexivity].
    assert (Hle : (e3 <=? emax - prec) = true)
      by (apply Z.leb_le; unfold JSNumber.emax, JSNumber.prec; lia).
    now rewrite Hle. }
  split; [exact Hm3pos|]. split; [lia|]. split; [exact Hm3b|].
  rewrite Hsplit3. split; nia.
Qed.

Lemma mul_finite (m my : positive) (e ey : Z) :
  mul (S754_finite false m e) (S754_finite false my ey)
  = binary_round_aux prec emax false (Z.pos (m * my)) (e + ey) loc_Exact.
Proof. reflexivity. Qed.

Lemma percent_product (m my : positive) (e ey : Z) :
  Z.pos my = 100 * 2 ^ 46 -> ey = -46 ->
  e <= 0 -> Z.pos m < 2 ^ (- e) ->
  exists m3 e3 W : Z,
    mul (S754_finite false m e) (S754_finite false my ey)
    = match m3 with
      | Z0 => S754_zero false
      | Z.pos m' => S754_finite false m' e3
      | Z.neg _ => S754_nan
      end
    /\ 0 <= m3
    /\ e3 <= -46
    /\ m3 <= 100 * 2 ^ (- e3)
    /\ 0 < W
    /\ W * 2 ^ (- e3) = 2 ^ 46 * 2 ^ (- e)
    /\ (m3 - 1) * W <= 100 * 2 ^ 46 * Z.pos m < (m3 + 1) * W.
Proof.
  intros Hmy Hey He Hm. rewrite mul_finite. subst ey.
  assert (HK : 0 < 2 ^ 46) by (apply Z.pow_pos_nonneg; lia).
  assert (HE : 0 < 2 ^ (- e)) by (apply Z.pow_pos_nonneg; lia).
  assert (Hsplit : 2 ^ (- (e + -46)) = 2 ^ 46 * 2 ^ (- e)).
  { rewrite <- Z.pow_add_r by lia. f_equal. lia. }
  assert (Hprod : Z.pos (m * my) = 100 * 2 ^ 46 * Z.pos m).
  { rewrite Pos2Z.inj_mul, Hmy. ring. }
  destruct (round_aux_percent (m * my) (e + -46)) as (m3 & e3 & Hy & H0 & He3 & Hb & Hlo & Hhi).
  - lia.
  - rewrite Hprod, Hsplit.
    remember (2 ^ 46) as K. remember (2 ^ (- e)) as E.
    assert (K * Z.pos m < K * E) by (apply Z.mul_lt_mono_pos_l; assumption).
    lia.
  - exists m3, e3, (2 ^ (e3 - (e + -46))).
    split; [exact Hy|]. split; [exact H0|]. split; [lia|].
    split; [exact Hb|].
    split; [apply Z.pow_pos_nonneg; lia|].
    split.
    + rewrite <- !Z.pow_add_r by lia. f_equal. lia.
    + rewrite <- Hprod. split; assumption.
Qed.

Lemma nearest_integer_spec (m : positive) (e : Z) :
  e < 0 ->
  2 * nearest_integer false m e * 2 ^ (- e) <= 2 * Z.pos m + 2 ^ (- e)
  /\ 2 * Z.pos m + 2 ^ (- e) < 2 * (nearest_integer false m e + 1) * 2 ^ (- e).
Proof.
  intros Hneg. unfold nearest_integer.
  rewrite Z.shiftr_div_pow2, Z.shiftl_mul_pow2 by lia.
  rewrite Z.mul_1_l.
  set (h := 2 ^ (- e - 1)).
  assert (Hh : 0 < h) by (apply Z.pow_pos_nonneg; lia).
  assert (Hp : 2 ^ (- e) = 2 * h).
  { unfold h. rewrite <- Z.pow_succ_r by lia. f_equal. lia. }
  rewrite Hp.
  assert (Hlo := Z.mul_div_le (Z.pos m + h) (2 * h) ltac:(lia)).
  assert (Hhi := Z.mul_succ_div_gt (Z.pos m + h) (2 * h) ltac:(lia)).
  set (z := (Z.pos m + h) / (2 * h)) in *.
  split; nia.
Qed.

Lemma round_product (m3 e3 W K E M : Z) (y : number) :
  y = match m3 with
      | Z0 => S754_zero false
      | Z.pos m' => S754_finite false m' e3
      | Z.neg _ => S754_nan
      end ->
  0 <= m3 -> e3 <= -46 -> m3 <= 100 * 2 ^ (- e3) ->
  0 < W -> 0 < K -> 0 < E ->
  W * 2 ^ (- e3) = K * E ->
  (m3 - 1) * W <= 100 * K * M < (m3 + 1) * W ->
  exists z : Z,
    integer_value (Math_round y) = Some z
    /\ 0 <= z <= 100
    /\ roundsTo y z = true
    /\ (z - 1) * E < 100 * M < (z + 1) * E.
Proof.
  intros Hy H0 He3 Hb HW HK HE HWU [Hlo Hhi].
  assert (HU : 4 <= 2 ^ (- e3)).
  { change 4 with (2 ^ 2). apply Z.pow_le_mono_r; lia. }
  remember (2 ^ (- e3)) as U eqn:EU.
  assert (HW2 : 2 * W < U * W) by (apply Z.mul_lt_mono_pos_r; lia).
  destruct m3 as [|p|p]; [| |lia]; subst y.
  - exists 0. split; [reflexivity|]. split; [lia|]. split; [reflexivity|].
    split; apply Z.mul_lt_mono_pos_r with (p := K); try exact HK.
    + replace ((0 - 1) * E * K) with (- (W * U)) by (rewrite HWU; ring).
      replace (100 * M * K) with (100 * K * M) by ring. nia.
    + replace ((0 + 1) * E * K) with (W * U) by (rewrite HWU; ring).
      replace (100 * M * K) with (100 * K * M) by ring. nia.
  - assert (Hneg : e3 < 0) by lia.
    destruct (nearest_integer_spec p e3 Hneg) as [Hz1 Hz2].
    rewrite <- EU in Hz1, Hz2.
    unfold Math_round, roundsTo.
    destruct (Z.leb_spec 0 e3) as [Hge | _]; [lia|].
    rewrite <- EU. unfold signed.
    set (z := nearest_integer false p e3) in *.
    assert (Hzr : 0 <= z <= 100) by nia.
    exists z. split.
    { destruct (Z.eqb_spec z 0) as [-> | _]; [reflexivity|].
      apply integer_value_small. exact Hzr. }
    split; [exact Hzr|]. split.
    { apply andb_true_intro. split; [apply Z.leb_le | apply Z.ltb_lt];
        assumption. }
    assert (H1 : 2 * z * U * W <= (2 * Z.pos p + U) * W)
      by (apply Z.mul_le_mono_nonneg_r; lia).
    assert (H2 : (2 * Z.pos p + U) * W < 2 * (z + 1) * U * W)
      by (apply Z.mul_lt_mono_pos_r; lia).
    split; apply Z.mul_lt_mono_pos_r with (p := K); try exact HK.
    + replace ((z - 1) * E * K) with ((z - 1) * (W * U)) by (rewrite HWU; ring).
      replace (100 * M * K) with (100 * K * M) by ring. nia.
    + replace ((z + 1) * E * K) with ((z + 1) * (W * U)) by (rewrite HWU; ring).
      replace (100 * M * K) with (100 * K * M) by ring. nia.
Qed.

Lemma binary64_one (m : positive) :
  is_binary64 (S754_finite false m (-52)) = true ->
  Z.pos m <= 2 ^ 52 ->
  S754_finite false m (-52) = of_Z 1.
Proof.
  intros Hv Hle.
  unfold is_binary64, valid_binary, bounded, canonical_mantissa in Hv.
  apply andb_prop in Hv. destruct Hv as [Hv _].
  apply Z.eqb_eq in Hv. rewrite fexp_eq in Hv.
  assert (Hd : Z.pos (digits2_pos m) = 53) by lia.
  assert (Hlow := digits2_pos_lower m). rewrite Hd in Hlow.
  change (53 - 1) with 52 in Hlow.
  rewrite of_Z_1. f_equal. apply Pos2Z.inj.
  transitivity (2 ^ 52); [apply Z.le_antisymm; assumption | exact pow2_52].
Qed.

Lemma percentage_of_one :
  integer_value (Math_round (mul (of_Z 1) (of_Z 100))) = Some 100
  /\ roundsTo (mul (of_Z 1) (of_Z 100)) 100 = true
  /\ withinOneOfPercentage (of_Z 1) 100 = true.
Proof. vm_compute. repeat split; reflexivity. Qed.

Lemma percentage_rounds (p : number) :
  is_binary64 p = true ->
  leb zero p = true ->
  leb p (of_Z 1) = true ->
  exists z : Z,
    integer_value (Math_round (mul p (of_Z 100))) = Some z
    /\ 0 <= z <= 100
    /\ roundsTo (mul p (of_Z 100)) z = true
    /\ withinOneOfPercentage p z = true.
Proof.
  intros Hv H0 H1. destruct p as [s | s | | s m e].
  - exists 0. rewrite of_Z_100. destruct s; repeat split; lia.
  - rewrite of_Z_1 in H1. destruct s; discriminate.
  - discriminate.
  - assert (s = false) by (eapply leb_zero_finite; eassumption). subst s.
    assert (Hm := binary64_mantissa _ _ _ Hv).
    destruct (leb_finite_one _ _ H1) as [He | [He Hle]].
    + assert (Hm' : Z.pos m < 2 ^ (- e)).
      { apply Z.lt_le_trans with (1 := Hm). apply Z.pow_le_mono_r; lia. }
      rewrite of_Z_100.
      destruct (percent_product m _ e (-46) (eq_sym hundred_pow2_46)
                  eq_refl ltac:(lia) Hm')
        as (m3 & e3 & W & Hy & Hm3 & He3 & Hb & HW & HWU & Hbr).
      assert (HK : 0 < 2 ^ 46) by (apply Z.pow_pos_nonneg; lia).
      assert (HE : 0 < 2 ^ (- e)) by (apply Z.pow_pos_nonneg; lia).
      destruct (round_product m3 e3 W (2 ^ 46) (2 ^ (- e)) (Z.pos m) _
                  Hy Hm3 He3 Hb HW HK HE HWU Hbr)
        as (z & Hi & Hz & Hr & Hlo & Hhi).
      exists z. split; [exact Hi|]. split; [exact Hz|]. split; [exact Hr|].
      unfold withinOneOfPercentage, signed.
      destruct (Z.leb_spec 0 e) as [Hge | _]; [lia|].
      apply andb_true_intro. split; apply Z.ltb_lt; assumption.
    + subst e. rewrite (binary64_one m Hv Hle).
      exists 100. destruct percentage_of_one as (Hi & Hr & Hw).
      split; [exact Hi|]. split; [lia|]. split; [exact Hr | exact Hw].
Qed.

Lemma percentage_examples :
  Math_round (mul n0_125 (of_Z 100)) = of_Z 13
  /\ Math_round (mul n0_29 (of_Z 100)) = of_Z 29
  /\ JSNumber.eqb (mul n0_29 (of_Z 100)) (of_Z 29) = false
  /\ roundsTo (mul n0_125 (of_Z 100)) 13 = true
  /\ roundsTo (mul n0_125 (of_Z 100)) 12 = false.
Proof. vm_compute. repeat split; reflexivity. Qed.

End Percentage.

(** ** The progress logger *)

Section Logger.

(** C7. A notification whose status is ["recognizing text"] sets the
    progress to [Math.round(m.progress * 100)] and changes nothing else.
    When the fraction [p] it carries is a binary64 value of [0, 1], the
    progress set is an integer [z] of [0 .. 100]: the integer nearest to
    the double product [p * 100], a tie going up, and less than one away
    from the exact percentage [100 p].  A notification with any other
    status changes nothing. *)
Theorem logger_sets_progress (m : LoggerMessage.t) (w : World) :
  (LoggerMessage.status m = js "recognizing text" ->
     logger m w
     = setProgress
         (Math_round (mul (LoggerMessage.progress m) (of_Z 100))) w
     /\ (is_binary64 (LoggerMessage.progress m) = true ->
         leb zero (LoggerMessage.progress m) = true ->
         leb (LoggerMessage.progress m) (of_Z 1) = true ->
         exists z : Z,
           integer_value (progress (app (logger m w))) = Some z
           /\ 0 <= z <= 100
           /\ roundsTo (mul (LoggerMessage.progress m) (of_Z 100)) z = true
           /\ withinOneOfPercentage (LoggerMessage.progress m) z = true))
  /\ (LoggerMessage.status m <> js "recognizing text" -> logger m w = w).
Proof.
  unfold logger. split; intros H.
  - apply eqb_eq in H. rewrite H. split; [reflexivity|].
    intros Hv H0 H1. cbn [setProgress app progress].
    apply percentage_rounds; assumption.
  - destruct (JSString.eqb _ _) eqn:E; [|reflexivity].
    apply eqb_eq in E. contradiction.
Qed.

Lemma logger_sets_progress_witness :
  (is_binary64 n0_125 = true
   /\ leb zero n0_125 = true
   /\ leb n0_125 (of_Z 1) = true
   /\ exists z : Z,
        integer_value
          (progress (app (logger (recognizing n0_125)
                            {| app := initialState; effects := [] |})))
        = Some z
        /\ 0 <= z <= 100
        /\ roundsTo (mul n0_125 (of_Z 100)) z = true
        /\ withinOneOfPercentage n0_125 z = true)
  /\ logger loadingCore {| app := initialState; effects := [] |}
     = {| app := initialState; effects := [] |}.
Proof.
  split.
  - split; [vm_compute; reflexivity|].
    split; [vm_compute; reflexivity|].
    split; [vm_compute; reflexivity|].
    apply (proj2 (proj1 (logger_sets_progress (recognizing n0_125)
                           {| app := initialState; effects := [] |})
                    eq_refl));
      vm_compute; reflexivity.
  - apply (proj2 (logger_sets_progress loadingCore
                    {| app := initialState; effects := [] |})).
    intros H. vm_compute in H. discriminate H.
Defined.

(** The tie 12.5 goes up to 13; 0.29 gives 29 although its double product
    with 100 is not 29. *)
Lemma logger_examples :
  progress (app (logger (recognizing n0_125)
                   {| app := initialState; effects := [] |}))
  = of_Z 13
  /\ progress (app (logger (recognizing n0_29)
                      {| app := initialState; effects := [] |}))
     = of_Z 29.
Proof. vm_compute. split; reflexivity. Qed.

(** The product is rounded to a double before [Math.round] sees it: the
    double nearest to 0.015 lies below 0.015, its product with 100 is the
    double 1.5, and the progress set is 2. *)
Lemma logger_double_product :
  match n0_015 with
  | S754_finite false m e => 200 * Z.pos m <? 3 * 2 ^ (- e)
  | _ => false
  end = true
  /\ mul n0_015 (of_Z 100) = div (of_Z 3) (of_Z 2)
  /\ progress (app (logger (recognizing n0_015)
                      {| app := initialState; effects := [] |}))
     = of_Z 2.
Proof. vm_compute. repeat split; reflexivity. Qed.

Lemma logger_half :

  progress (app (logger (recognizing n0_5)
                   {| app := initialState; effects := [] |}))
  = of_Z 50.
Proof. vm_compute. reflexivity. Qed.

End Logger.

(** ** The text preview *)

Section Preview.

Lemma previewParagraph_eq (d : ExtractedData) :
  previewParagraph d
  = if Nat.ltb 500 (List.length (text d))
    then firstn 500 (text d) ++ js "..."
    else text d.
Proof.
  unfold previewParagraph, substring0.
  destruct (Nat.ltb_spec 500 (List.length (text d))) as [H | H].
  - reflexivity.
  - rewrite firstn_all2 by exact H. apply app_nil_r.
Qed.

Lemma displayedPreview_eq (d : ExtractedData) :
  displayedPreview d
  = if Nat.ltb 500 (List.length (text d))
    then firstn 500 (text d) ++ js "..."
    else text d.
Proof.
  unfold displayedPreview, previewBlock.
  destruct (text d) as [|c t] eqn:Ht; [reflexivity|].
  rewrite previewParagraph_eq, Ht. reflexivity.
Qed.

(** C8. The preview shows the first 500 code units followed by ["..."]
    when the text is longer than 500, and the whole text with no marker
    otherwise (for an empty text the block is not rendered at all); the
    stored [text] is the whole trimmed text whatever its length. *)
Theorem preview_truncates_at_500 (d : ExtractedData) :
  displayedPreview d
    = (if Nat.ltb 500 (List.length (text d))
       then firstn 500 (text d) ++ js "..."
       else text d)
  /\ previewBlock d
     = (if Nat.eqb (List.length (text d)) 0 then None
        else Some (displayedPreview d))
  /\ (forall file raw conf now,
        text (buildResult file raw conf now) = trim raw).
Proof.
  split; [apply displayedPreview_eq|].
  split; [|reflexivity].
  unfold displayedPreview, previewBlock.
  destruct (text d); reflexivity.
Qed.

(** The two scenarios of the specification. *)
Lemma preview_of_600 (d : ExtractedData) :
  text d = repeat 97%N 600 ->
  displayedPreview d = repeat 97%N 500 ++ js "...".
Proof.
  intros H. rewrite displayedPreview_eq, H. vm_compute. reflexivity.
Qed.

Lemma preview_of_400 (d : ExtractedData) :
  text d = repeat 97%N 400 -> displayedPreview d = repeat 97%N 400.
Proof.
  intros H. rewrite displayedPreview_eq, H. vm_compute. reflexivity.
Qed.

End Preview.

(** ** Handlers that do not start a recognition *)

Section Handlers.

Lemma in_world_id (sys : System) :
  {| world := world sys; invocations := invocations sys |} = sys.
Proof. now destruct sys. Qed.

(** C5. Dropping a file whose type is [application/pdf] leaves the
    application state and the invocations as they are, calls neither the
    engine nor the clipboard, and emits exactly one failure notice. *)
Theorem pdf_drop_only_notifies (file : File) (others : list File)
    (sys : System) :
  type file = js "application/pdf" ->
  app (world (dispatch (Drop (file :: others)) sys)) = app (world sys)
  /\ invocations (dispatch (Drop (file :: others)) sys) = invocations sys
  /\ effects (world (dispatch (Drop (file :: others)) sys))
     = effects (world sys)
       ++ [ToastError
             (js "PDF processing requires a backend service. Please use image files for now.")].
Proof.
  intros H. cbn [dispatch onDrop]. unfold isPDF.
  rewrite (proj2 (eqb_eq _ _) H).
  repeat split; reflexivity.
Qed.

Lemma pdf_drop_only_notifies_witness :
  type samplePDF = js "application/pdf"
  /\ app (world (dispatch (Drop [samplePDF]) initialSystem))
     = app (world initialSystem)
  /\ invocations (dispatch (Drop [samplePDF]) initialSystem)
     = invocations initialSystem
  /\ effects (world (dispatch (Drop [samplePDF]) initialSystem))
     = effects (world initialSystem)
       ++ [ToastError
             (js "PDF processing requires a backend service. Please use image files for now.")].
Proof.
  split; [reflexivity|].
  apply (pdf_drop_only_notifies samplePDF [] initialSystem).
  reflexivity.
Defined.

(** C9. With no result in the state, the clipboard export returns at
    once: no clipboard write, no notice, no state change. *)
Theorem copy_without_result_is_noop (o : Outcome unit) (sys : System) :
  extractedData (app (world sys)) = None ->
  dispatch (ClickCopy o) sys = sys.
Proof.
  intros H. cbn [dispatch]. unfold in_world, copyToClipboard.
  rewrite H. apply in_world_id.
Qed.

Lemma copy_without_result_is_noop_witness :
  extractedData (app (world initialSystem)) = None
  /\ dispatch (ClickCopy (Fulfilled tt)) initialSystem = initialSystem.
Proof.
  split; [reflexivity|].
  apply (copy_without_result_is_noop (Fulfilled tt) initialSystem).
  reflexivity.
Defined.

(** With a result in the state the export writes it and notifies. *)
Lemma copy_with_result (o : Outcome unit) (w : World) (d : ExtractedData) :
  extractedData (app w) = Some d ->
  exists notice,
    effects (copyToClipboard o w)
    = effects w ++ [ClipboardWriteJSON d; notice].
Proof.
  intros H. unfold copyToClipboard. rewrite H.
  destruct o; eexists; cbn; rewrite <- app_assoc; reflexivity.
Qed.

(** Reset clears the result and zeroes the progress. *)
Lemma reset_clears (w : World) :
  extractedData (app (reset w)) = None
  /\ progress (app (reset w)) = zero
  /\ isProcessing (app (reset w)) = isProcessing (app w)
  /\ effects (reset w) = effects w.
Proof. repeat split; reflexivity. Qed.

End Handlers.

(** ** Failure of an invocation *)

Section Failure.

Lemma processImage_catch_state (error : jsstring) (w : World) :
  isProcessing (app (processImage_catch error w)) = false
  /\ progress (app (processImage_catch error w)) = zero
  /\ extractedData (app (processImage_catch error w))
     = extractedData (app w).
Proof. repeat split; reflexivity. Qed.

(** C4. When the [try] block of an invocation ends in a rejection,
    the invocation leaves [progress = 0] and [isProcessing = false], and
    [extractedData] is what it was before the invocation. *)
Theorem failure_resets_processing_state (file : File) (r : EngineRun)
    (sys : System) (error : jsstring) :
  tryOutcome r = Rejected error ->
  progress (app (world (processImage file r sys))) = zero
  /\ isProcessing (app (world (processImage file r sys))) = false
  /\ extractedData (app (world (processImage file r sys)))
     = extractedData (app (world sys)).
Proof.
  intros H. rewrite processImage_is_direct. cbn [focus world].
  unfold tryOutcome in H. unfold processImage_direct.
  assert (Hcatch : forall e,
    extractedData
      (app (processImage_catch e
              (notifyAll (createWorker_log r)
                 (processImage_enter (List.length (invocations sys))
                    (world sys)))))
    = extractedData (app (world sys))).
  { intros e. cbn [processImage_catch processImage_finally setProgress
                   setIsProcessing emit app extractedData].
    now rewrite notifyAll_extractedData. }
  assert (Hcatch' : forall e (f : World -> World),
    (forall w, extractedData (app (f w)) = extractedData (app w)) ->
    extractedData
      (app (processImage_catch e
              (f (notifyAll (recognize_log r)
                 (emit (Recognize (List.length (invocations sys)) file)
                    (notifyAll (createWorker_log r)
                       (processImage_enter (List.length (invocations sys))
                          (world sys)))))))) 
    = extractedData (app (world sys))).
  { intros e f Hf.
    cbn [processImage_catch processImage_finally setProgress
         setIsProcessing emit app extractedData].
    rewrite Hf, notifyAll_extractedData. cbn [emit app].
    now rewrite notifyAll_extractedData. }
  destruct (createWorker_result r) as [[]|e1].
  - destruct (recognize_result r) as [[text confidence]|e2].
    + destruct (terminate_result r) as [[]|e3]; [discriminate|].
      cbn [resume_terminate fst].
      repeat split; try reflexivity.
      apply (Hcatch' e3 (emit (Terminate _))). reflexivity.
    + repeat split; try reflexivity.
      apply (Hcatch' e2 (fun w => w)). reflexivity.
  - repeat split; try reflexivity. apply Hcatch.
Qed.

Lemma failure_resets_processing_state_witness :
  tryOutcome failingRun = Rejected (js "Error: truncated image")
  /\ progress (app (world (processImage sampleImage failingRun
                             initialSystem))) = zero
  /\ isProcessing (app (world (processImage sampleImage failingRun
                                 initialSystem))) = false
  /\ extractedData (app (world (processImage sampleImage failingRun
                                  initialSystem)))
     = extractedData (app (world initialSystem)).
Proof.
  split; [reflexivity|].
  apply (failure_resets_processing_state sampleImage failingRun
           initialSystem (js "Error: truncated image")).
  reflexivity.
Defined.

(** *** Release of the engine instance *)

(** X14. [worker.terminate()] is called by an invocation exactly when its
    [recognize] call is fulfilled. *)
Lemma terminate_iff_recognized (file : File) (r : EngineRun)
    (sys : System) :
  let id := List.length (invocations sys) in
  ~ In (Terminate id) (effects (world sys)) ->
  (In (Terminate id) (effects (world (processImage file r sys)))
   <-> exists raw conf,
         createWorker_result r = Fulfilled tt
         /\ recognize_result r = Fulfilled (raw, conf)).
Proof.
  intros id Hfresh. rewrite processImage_is_direct. cbn [focus world].
  unfold processImage_direct. fold id.
  assert (Hbase : effects (notifyAll (createWorker_log r)
                             (processImage_enter id (world sys)))
                  = effects (world sys) ++ [CreateWorker id]).
  { now rewrite notifyAll_effects. }
  destruct (createWorker_result r) as [[]|e1].
  - assert (Hrec : effects
                     (notifyAll (recognize_log r)
                        (emit (Recognize id file)
                           (notifyAll (createWorker_log r)
                              (processImage_enter id (world sys)))))
                   = effects (world sys)
                     ++ [CreateWorker id; Recognize id file]).
    { rewrite notifyAll_effects. cbn [emit effects]. rewrite Hbase.
      now rewrite <- app_assoc. }
    destruct (recognize_result r) as [[text confidence]|e2].
    + split; [intros _; now exists text, confidence|]. intros _.
      destruct (terminate_result r) as [[]|e3];
        cbn [resume_terminate fst processImage_catch processImage_finally
             setProgress setIsProcessing setExtractedData emit effects];
        rewrite Hrec, !in_app_iff; cbn; tauto.
    + split; [|intros [raw [conf [_ Hr]]]; discriminate].
      cbn [processImage_catch processImage_finally setProgress
           setIsProcessing emit effects].
      rewrite Hrec, !in_app_iff. cbn. intuition discriminate.
  - split; [|intros [raw [conf [Hc _]]]; discriminate].
    cbn [processImage_catch processImage_finally setProgress
         setIsProcessing emit effects].
    rewrite Hbase, !in_app_iff. cbn. intuition discriminate.
Qed.

(** C2 fails on the code.  The engine instance is acquired
    ([createWorker] fulfilled, [recognize] called on the worker) and
    [recognize] rejects: the invocation ends without ever calling
    [terminate]. *)
Theorem failed_recognition_leaks_worker :
  createWorker_result failingRun = Fulfilled tt
  /\ In (Recognize 0 sampleImage)
        (effects (world (processImage sampleImage failingRun
                           initialSystem)))
  /\ ~ In (Terminate 0)
          (effects (world (processImage sampleImage failingRun
                             initialSystem)))
  /\ pendingCount (processImage sampleImage failingRun initialSystem) = O.
Proof.
  split; [reflexivity|]. split; [vm_compute; tauto|].
  split; [|reflexivity].
  vm_compute. intuition discriminate.
Qed.

(** On the success path the instance is released. *)
Lemma successful_recognition_terminates (file : File) (r : EngineRun)
    (sys : System) (raw : jsstring) (conf : number) :
  tryOutcome r = Fulfilled (raw, conf) ->
  In (Terminate (List.length (invocations sys)))
     (effects (world (processImage file r sys))).
Proof.
  intros H. rewrite processImage_is_direct. cbn [focus world].
  unfold tryOutcome in H. unfold processImage_direct.
  destruct (createWorker_result r) as [[]|e1]; [|discriminate].
  destruct (recognize_result r) as [[text confidence]|e2]; [|discriminate].
  destruct (terminate_result r) as [[]|e3]; [|discriminate].
  cbn [resume_terminate fst processImage_finally setProgress
       setIsProcessing setExtractedData emit effects].
  rewrite !in_app_iff. cbn. tauto.
Qed.

End Failure.

(** ** The processing flag and the progress value *)

Section ProcessingInvariant.

Local Open Scope nat_scope.

Lemma pendingCount_set_nth (invs : list Invocation) (id : nat)
    (inv inv' : Invocation) :
  nth_error invs id = Some inv ->
  pending inv = true ->
  List.length (List.filter pending (set_nth id inv' invs)) + 1
  = List.length (List.filter pending invs)
    + (if pending inv' then 1 else 0).
Proof.
  revert id. induction invs as [|a invs IH]; intros id Hnth Hp.
  - destruct id; discriminate.
  - destruct id as [|id]; simpl in *.
    + injection Hnth as ->. rewrite Hp.
      destruct (pending inv'); simpl; lia.
    + specialize (IH id Hnth Hp).
      destruct (pending a); simpl; lia.
Qed.

(** A resumption either does nothing or advances one pending
    invocation. *)
Lemma resume_cases (id : nat)
    (k : File -> Stage -> World -> option (World * option Stage))
    (sys : System) :
  resume id k sys = sys
  \/ exists file stage w stage',
       nth_error (invocations sys) id
       = Some {| inv_file := file; inv_stage := Some stage |}
       /\ k file stage (world sys) = Some (w, stage')
       /\ resume id k sys
          = {| world := w;
               invocations :=
                 set_nth id {| inv_file := file; inv_stage := stage' |}
                   (invocations sys) |}.
Proof.
  unfold resume.
  destruct (nth_error (invocations sys) id) as [[file [stage|]]|] eqn:Hnth;
    try (left; reflexivity).
  destruct (k file stage (world sys)) as [[w stage']|] eqn:Hk;
    [|left; reflexivity].
  right. exists file, stage, w, stage'. auto.
Qed.

Lemma resume_flag (id : nat)
    (k : File -> Stage -> World -> option (World * option Stage))
    (sys : System) :
  keepsFlag k ->
  flagInvariant sys ->
  flagInvariant (resume id k sys).
Proof.
  intros Hk Hinv.
  destruct (resume_cases id k sys)
    as [-> | [file [stage [w [stage' [Hnth [Hkw ->]]]]]]]; [exact Hinv|].
  pose proof (pendingCount_set_nth (invocations sys) id _
                {| inv_file := file; inv_stage := stage' |} Hnth eq_refl)
    as Hcount.
  pose proof (pendingCount_set_nth (invocations sys) id _
                {| inv_file := file; inv_stage := None |} Hnth eq_refl)
    as Hpos.
  specialize (Hk file stage (world sys) w stage' Hkw).
  unfold flagInvariant, pendingCount in *. cbn [world invocations].
  destruct Hinv as [[H0 _] | [H1 Hflag]].
  - rewrite H0 in Hpos. simpl in Hpos. lia.
  - rewrite H1 in Hcount. destruct stage' as [st|]; simpl in Hcount.
    + right. split; [lia | congruence].
    + left. split; [lia | apply Hk].
Qed.

Lemma resume_idle (id : nat)
    (k : File -> Stage -> World -> option (World * option Stage))
    (sys : System) :
  keepsFlag k ->
  idleProgress sys ->
  idleProgress (resume id k sys).
Proof.
  intros Hk Hinv.
  destruct (resume_cases id k sys)
    as [-> | [file [stage [w [stage' [Hnth [Hkw ->]]]]]]]; [exact Hinv|].
  pose proof (pendingCount_set_nth (invocations sys) id _
                {| inv_file := file; inv_stage := stage' |} Hnth eq_refl)
    as Hcount.
  pose proof (pendingCount_set_nth (invocations sys) id _
                {| inv_file := file; inv_stage := None |} Hnth eq_refl)
    as Hpos.
  specialize (Hk file stage (world sys) w stage' Hkw).
  unfold idleProgress, pendingCount in *. cbn [world invocations].
  intros H0. rewrite H0 in Hcount.
  destruct stage' as [st|]; simpl in Hcount, Hpos; [lia | apply Hk].
Qed.

Lemma keepsFlag_createWorker (id : nat) (o : Outcome unit) :
  keepsFlag (fun file stage w =>
               match stage with
               | AwaitCreateWorker =>
                   Some (resume_createWorker id file o w)
               | _ => None
               end).
Proof.
  intros file stage w w' stage' H.
  destruct stage; try discriminate.
  destruct o; injection H as <- <-; cbn; auto.
Qed.

Lemma keepsFlag_recognize (id : nat) (o : Outcome (jsstring * number)) :
  keepsFlag (fun _ stage w =>
               match stage with
               | AwaitRecognize => Some (resume_recognize id o w)
               | _ => None
               end).
Proof.
  intros file stage w w' stage' H.
  destruct stage; try discriminate.
  destruct o as [[text confidence]|e]; injection H as <- <-; cbn; auto.
Qed.

Lemma keepsFlag_terminate (o : Outcome unit) (now : jsstring) :
  keepsFlag (fun file stage w =>
               match stage with
               | AwaitTerminate text confidence =>
                   Some (resume_terminate file text confidence o now w)
               | _ => None
               end).
Proof.
  intros file stage w w' stage' H.
  destruct stage; try discriminate.
  destruct o; injection H as <- <-; cbn; auto.
Qed.

Lemma pendingCount_call (file : File) (sys : System) :
  pendingCount (processImage_call file sys) = S (pendingCount sys).
Proof.
  unfold pendingCount, processImage_call. cbn [invocations].
  rewrite filter_app, length_app. simpl. lia.
Qed.

Lemma isPending_count (id : nat) (sys : System) :
  isPending id sys = true -> 1 <= pendingCount sys.
Proof.
  unfold isPending, pendingCount.
  destruct (nth_error (invocations sys) id) as [inv|] eqn:Hnth;
    [|discriminate].
  intros Hp.
  pose proof (pendingCount_set_nth (invocations sys) id inv
                {| inv_file := inv_file inv; inv_stage := None |} Hnth Hp)
    as Hpos.
  simpl in Hpos. lia.
Qed.

(** The logger leaves the invocations and the processing flag alone. *)
Lemma dispatch_notify_frame (id : nat) (m : LoggerMessage.t) (sys : System) :
  invocations (dispatch (Notify id m) sys) = invocations sys
  /\ isProcessing (app (world (dispatch (Notify id m) sys)))
     = isProcessing (app (world sys)).
Proof.
  cbn [dispatch]. destruct (nth_error (invocations sys) id).
  - split; [reflexivity | apply logger_frame].
  - split; reflexivity.
Qed.

(** Every event keeps the flag in step with the pending invocation,
    provided an image is dropped only when nothing is pending. *)
Lemma dispatch_flag (ev : Event) (sys : System) :
  (startsRecognition ev = true -> pendingCount sys = 0) ->
  flagInvariant sys ->
  flagInvariant (dispatch ev sys).
Proof.
  intros Hserial Hinv. destruct ev.
  - (* Drop *)
    cbn [dispatch].
    destruct acceptedFiles as [|file others]; [exact Hinv|].
    cbn [onDrop]. cbn [startsRecognition] in Hserial.
    destruct (isPDF file).
    + exact Hinv.
    + right. rewrite pendingCount_call, (Hserial eq_refl).
      split; reflexivity.
  - exact Hinv.
  - exact Hinv.
  - (* ClickCopy *)
    cbn [dispatch].
    unfold flagInvariant, pendingCount, in_world, copyToClipboard in *.
    cbn [world invocations].
    destruct (extractedData (app (world sys))); [|exact Hinv].
    destruct writeText; exact Hinv.
  - exact Hinv.
  - (* Notify *)
    destruct (dispatch_notify_frame id m sys) as [Hi Hf].
    unfold flagInvariant, pendingCount in *. now rewrite Hi, Hf.
  - apply resume_flag; [apply keepsFlag_createWorker | exact Hinv].
  - apply resume_flag; [apply keepsFlag_recognize | exact Hinv].
  - apply resume_flag; [apply keepsFlag_terminate | exact Hinv].
Qed.

(** Every event keeps the progress at zero when nothing is pending,
    provided a notification reaches a pending invocation only. *)
Lemma dispatch_idle (ev : Event) (sys : System) :
  notifiesPending ev sys = true ->
  idleProgress sys ->
  idleProgress (dispatch ev sys).
Proof.
  intros Htimely Hinv. destruct ev.
  - (* Drop *)
    cbn [dispatch].
    destruct acceptedFiles as [|file others]; [exact Hinv|].
    cbn [onDrop]. destruct (isPDF file); [exact Hinv|].
    intros H0. rewrite pendingCount_call in H0. discriminate.
  - exact Hinv.
  - exact Hinv.
  - (* ClickCopy *)
    cbn [dispatch].
    unfold idleProgress, pendingCount, in_world, copyToClipboard in *.
    cbn [world invocations].
    destruct (extractedData (app (world sys))); [|exact Hinv].
    destruct writeText; exact Hinv.
  - intros _. reflexivity.
  - (* Notify *)
    cbn [notifiesPending] in Htimely.
    apply isPending_count in Htimely.
    destruct (dispatch_notify_frame id m sys) as [Hi _].
    unfold idleProgress, pendingCount in *. rewrite Hi. lia.
  - apply resume_idle; [apply keepsFlag_createWorker | exact Hinv].
  - apply resume_idle; [apply keepsFlag_recognize | exact Hinv].
  - apply resume_idle; [apply keepsFlag_terminate | exact Hinv].
Qed.

Lemma serialTrace_flag (evs : list Event) (sys : System) :
  serialTrace evs sys = true ->
  flagInvariant sys ->
  flagInvariant (run evs sys).
Proof.
  revert sys. induction evs as [|ev evs IH]; intros sys Hs Hinv.
  - exact Hinv.
  - cbn [serialTrace] in Hs. apply andb_prop in Hs. destruct Hs as [Hev Hs].
    cbn [run fold_left]. apply IH; [exact Hs|].
    apply dispatch_flag; [|exact Hinv].
    intros Hstart. rewrite Hstart in Hev. now apply Nat.eqb_eq.
Qed.

Lemma timelyTrace_idle (evs : list Event) (sys : System) :
  timelyTrace evs sys = true ->
  idleProgress sys ->
  idleProgress (run evs sys).
Proof.
  revert sys. induction evs as [|ev evs IH]; intros sys Hs Hinv.
  - exact Hinv.
  - cbn [timelyTrace] in Hs. apply andb_prop in Hs. destruct Hs as [Hev Hs].
    cbn [run fold_left]. apply IH; [exact Hs|].
    now apply dispatch_idle.
Qed.

Lemma initialSystem_flag : flagInvariant initialSystem.
Proof. left. split; reflexivity. Qed.

Lemma initialSystem_idle : idleProgress initialSystem.
Proof. intros _. reflexivity. Qed.

(** Both conditions together give the invariant of an application that
    runs one recognition at a time. *)
Lemma serialTrace_invariant (evs : list Event) :
  serialTrace evs initialSystem = true ->
  timelyTrace evs initialSystem = true ->
  processingInvariant (run evs initialSystem).
Proof.
  intros Hs Ht.
  pose proof (timelyTrace_idle evs initialSystem Ht initialSystem_idle)
    as Hidle.
  destruct (serialTrace_flag evs initialSystem Hs initialSystem_flag)
    as [[H0 Hf] | [H1 Hf]].
  - left. auto.
  - right. auto.
Qed.

(** The state the overlapping trace ends in. *)
Lemma overlappingTrace_state :
  isProcessing (app (world (run overlappingTrace initialSystem))) = false
  /\ progress (app (world (run overlappingTrace initialSystem))) = of_Z 50
  /\ pendingCount (run overlappingTrace initialSystem) = 1.
Proof. vm_compute. repeat split; reflexivity. Qed.

(** C10, as stated, fails: after two overlapping invocations, of which
    one has finished and the other is still being notified, the
    processing flag is off and the progress is 50. *)
Lemma overlapping_invocations_break_invariant :
  ~ (forall evs : list Event,
       isProcessing (app (world (run evs initialSystem))) = false ->
       progress (app (world (run evs initialSystem))) = zero).
Proof.
  intros H. specialize (H overlappingTrace).
  destruct overlappingTrace_state as [Hflag [Hprogress _]].
  specialize (H Hflag). rewrite Hprogress in H.
  vm_compute in H. discriminate.
Qed.

(** The logger has no guard of its own.  With a single recognition and
    nothing overlapping, a notification that arrives after the invocation
    has ended still sets the progress: the flag is off and the progress is
    50. *)
Lemma late_notification_sets_progress :
  serialTrace lateNotificationTrace initialSystem = true
  /\ timelyTrace lateNotificationTrace initialSystem = false
  /\ isProcessing (app (world (run lateNotificationTrace initialSystem)))
     = false
  /\ progress (app (world (run lateNotificationTrace initialSystem)))
     = of_Z 50.
Proof. vm_compute. repeat split; reflexivity. Qed.

(** C10, amended. In every state reached by a trace in which no image
    is dropped while a recognition is pending and every logger
    notification reaches an invocation that is still pending,
    [isProcessing = false] implies [progress = 0]. *)
Theorem serial_processing_invariant (evs : list Event) :
  serialTrace evs initialSystem = true ->
  timelyTrace evs initialSystem = true ->
  isProcessing (app (world (run evs initialSystem))) = false ->
  progress (app (world (run evs initialSystem))) = zero.
Proof.
  intros Hs Ht Hflag.
  destruct (serialTrace_invariant evs Hs Ht) as [[_ [_ Hp]] | [_ Hf]].
  - exact Hp.
  - congruence.
Qed.

Lemma serial_processing_invariant_witness :
  serialTrace serialSampleTrace initialSystem = true
  /\ timelyTrace serialSampleTrace initialSystem = true
  /\ isProcessing (app (world (run serialSampleTrace initialSystem)))
     = false
  /\ progress (app (world (run serialSampleTrace initialSystem))) = zero.
Proof.
  split; [vm_compute; reflexivity|].
  split; [vm_compute; reflexivity|].
  split; [vm_compute; reflexivity|].
  apply (serial_processing_invariant serialSampleTrace);
    vm_compute; reflexivity.
Defined.

End ProcessingInvariant.


(** * Further properties of the code *)

(** ** The trimmed text and its words (lines 41-44) *)

Section TextProperties.

Local Open Scope nat_scope.

Lemma trimStart_head (s : jsstring) :
  match trimStart s with
  | [] => True
  | c :: _ => isWhiteSpace c = false
  end.
Proof.
  induction s as [|c r IH]; simpl; [exact I|].
  destruct (isWhiteSpace c) eqn:Hc; [exact IH | exact Hc].
Qed.

Lemma trimStart_fixed (s : jsstring) :
  match s with
  | [] => True
  | c :: _ => isWhiteSpace c = false
  end ->
  trimStart s = s.
Proof. destruct s as [|c r]; simpl; [reflexivity|]. now intros ->. Qed.

Lemma trimEnd_last (s : jsstring) :
  match rev (trimEnd s) with
  | [] => True
  | c :: _ => isWhiteSpace c = false
  end.
Proof. unfold trimEnd. rewrite rev_involutive. apply trimStart_head. Qed.

(** Cutting trailing whitespace keeps a first code unit that is not
    whitespace. *)
Lemma trimEnd_head (s : jsstring) :
  match s with
  | [] => True
  | c :: _ => isWhiteSpace c = false
  end ->
  match trimEnd s with
  | [] => s = []
  | c :: _ => isWhiteSpace c = false
  end.
Proof.
  intros Hs. destruct (trimEnd_decompose s) as [w [Hd Hw]].
  destruct (trimEnd s) as [|c t].
  - simpl in Hd. subst w. destruct s as [|c r]; [reflexivity|].
    simpl in Hw. rewrite Hs in Hw. discriminate.
  - rewrite Hd in Hs. exact Hs.
Qed.

Lemma trim_head (s : jsstring) :
  match trim s with
  | [] => True
  | c :: _ => isWhiteSpace c = false
  end.
Proof.
  unfold trim. pose proof (trimEnd_head _ (trimStart_head s)) as H.
  destruct (trimEnd (trimStart s)); [exact I | exact H].
Qed.

Lemma trim_last (s : jsstring) :
  match rev (trim s) with
  | [] => True
  | c :: _ => isWhiteSpace c = false
  end.
Proof. apply trimEnd_last. Qed.

Lemma trim_fixed (s : jsstring) :
  match s with [] => True | c :: _ => isWhiteSpace c = false end ->
  match rev s with [] => True | c :: _ => isWhiteSpace c = false end ->
  trim s = s.
Proof.
  intros Hh Hl. unfold trim. rewrite (trimStart_fixed s Hh).
  unfold trimEnd. rewrite (trimStart_fixed (rev s) Hl).
  apply rev_involutive.
Qed.

(** X1. The stored text neither starts nor ends with whitespace, and trimming
    it again changes nothing. *)
Theorem text_has_no_outer_whitespace (file : File) (raw : jsstring)
    (conf : number) (now : jsstring) :
  match text (buildResult file raw conf now) with
  | [] => True
  | c :: _ => isWhiteSpace c = false
  end
  /\ match rev (text (buildResult file raw conf now)) with
     | [] => True
     | c :: _ => isWhiteSpace c = false
     end
  /\ trim (text (buildResult file raw conf now))
     = text (buildResult file raw conf now).
Proof.
  cbn [buildResult text].
  split; [apply trim_head|]. split; [apply trim_last|].
  apply trim_fixed; [apply trim_head | apply trim_last].
Qed.

(** *** The pieces of [split] *)

Lemma split_go_concat (s cur : jsstring) (in_sep : bool) :
  (in_sep = true -> cur = []) ->
  List.concat (split_go s cur in_sep) = rev cur ++ List.filter notWhiteSpace s.
Proof.
  revert cur in_sep. induction s as [|c r IH]; intros cur in_sep Hsep.
  - simpl. now rewrite !app_nil_r.
  - simpl. unfold notWhiteSpace at 1. destruct (isWhiteSpace c); simpl.
    + destruct in_sep.
      * rewrite (Hsep eq_refl). now apply IH.
      * simpl. now rewrite (IH [] true) by reflexivity.
    + rewrite (IH (c :: cur) false) by discriminate.
      simpl. now rewrite <- app_assoc.
Qed.

Lemma split_go_pieces (s cur : jsstring) (in_sep : bool) :
  forallb notWhiteSpace cur = true ->
  Forall (fun piece => forallb notWhiteSpace piece = true)
    (split_go s cur in_sep).
Proof.
  revert cur in_sep. induction s as [|c r IH]; intros cur in_sep Hcur.
  - simpl. constructor; [|constructor].
    rewrite forallb_forall in *. intros x Hx. apply Hcur. now apply in_rev.
  - simpl. destruct (isWhiteSpace c) eqn:Hc.
    + destruct in_sep; [now apply IH|].
      constructor; [|now apply IH].
      rewrite forallb_forall in *. intros x Hx. apply Hcur. now apply in_rev.
    + apply IH. simpl. unfold notWhiteSpace at 1. now rewrite Hc.
Qed.

(** X2. [split(/\s+/)] drops the whitespace and nothing else: no piece holds a
    whitespace code unit, and the pieces put end to end are the string
    without its whitespace. *)
Theorem split_keeps_the_other_code_units (s : jsstring) :
  List.concat (split_whitespace s) = List.filter notWhiteSpace s
  /\ Forall (fun piece => forallb notWhiteSpace piece = true)
       (split_whitespace s).
Proof.
  unfold split_whitespace. split.
  - now rewrite split_go_concat by discriminate.
  - now apply split_go_pieces.
Qed.

(** On a string that neither starts nor ends with whitespace every piece
    holds a code unit. *)
Lemma split_go_nonEmpty (s cur : jsstring) (in_sep : bool) :
  (in_sep = true -> cur = []) ->
  (s = [] -> cur <> []) ->
  (forall s' c, s = s' ++ [c] -> isWhiteSpace c = false) ->
  (cur = [] -> in_sep = false ->
   match s with [] => False | c :: _ => isWhiteSpace c = false end) ->
  forallb nonEmpty (split_go s cur in_sep) = true.
Proof.
  revert cur in_sep. induction s as [|c r IH]; intros cur in_sep Hsep HA HB HC.
  - simpl. rewrite nonEmpty_rev. destruct cur; [now elim HA | reflexivity].
  - assert (HB' : forall s' c', r = s' ++ [c'] -> isWhiteSpace c' = false).
    { intros s' c' ->. now apply (HB (c :: s') c'). }
    assert (HA' : isWhiteSpace c = true -> r = [] -> [] <> (@nil code_unit)).
    { intros Hc ->. rewrite (HB [] c eq_refl) in Hc. discriminate. }
    simpl. destruct (isWhiteSpace c) eqn:Hc.
    + destruct in_sep.
      * rewrite (Hsep eq_refl).
        apply IH; auto; discriminate.
      * simpl. rewrite nonEmpty_rev.
        destruct cur as [|x cur]; [specialize (HC eq_refl eq_refl); congruence|].
        simpl. apply IH; auto; discriminate.
    + apply IH; auto; discriminate.
Qed.

Lemma split_trim_nonEmpty (raw : jsstring) :
  blank raw = false ->
  forallb nonEmpty (split_whitespace (trim raw)) = true.
Proof.
  intros Hb. unfold split_whitespace.
  assert (Hne : trim raw <> []).
  { intros H. apply trim_nil_blank in H. congruence. }
  apply split_go_nonEmpty.
  - discriminate.
  - intros H. contradiction.
  - intros s' c H. pose proof (trim_last raw) as Hl.
    rewrite H, rev_app_distr in Hl. exact Hl.
  - intros _ _. pose proof (trim_head raw) as Hh.
    destruct (trim raw); [contradiction | exact Hh].
Qed.

Lemma split_go_length (s cur : jsstring) (in_sep : bool) :
  1 <= List.length (split_go s cur in_sep).
Proof.
  revert cur in_sep. induction s as [|c r IH]; intros cur in_sep; simpl.
  - lia.
  - destruct (isWhiteSpace c); [destruct in_sep|]; simpl;
      try apply IH; lia.
Qed.

Lemma filter_all {A : Type} (p : A -> bool) (l : list A) :
  forallb p l = true -> List.filter p l = l.
Proof.
  induction l as [|a l IH]; simpl; [reflexivity|].
  intros H. apply andb_prop in H. destruct H as [-> H]. now rewrite IH.
Qed.

(** X3. The [filter] of the word count removes a piece only for a blank text,
    where [split] returns the single empty piece; otherwise every piece of
    the trimmed text is a word, and there is at least one. *)
Theorem filter_matters_only_for_blank_text (raw : jsstring) :
  List.filter nonEmpty (split_whitespace (trim raw))
  = (if blank raw then [] else split_whitespace (trim raw))
  /\ split_whitespace (trim raw)
     = (if blank raw then [[]] else split_whitespace (trim raw))
  /\ countWords raw
     = (if blank raw then 0
        else List.length (split_whitespace (trim raw)))
  /\ (if blank raw then countWords raw = 0 else 1 <= countWords raw).
Proof.
  change (countWords raw)
    with (List.length (List.filter nonEmpty (split_whitespace (trim raw)))).
  destruct (blank raw) eqn:Hb.
  - rewrite (trim_blank raw Hb). repeat split; reflexivity.
  - rewrite (filter_all _ _ (split_trim_nonEmpty raw Hb)).
    repeat split; try reflexivity.
    apply split_go_length.
Qed.

(** X4. The [trim()] before [split] does not change the count: the empty
    pieces it avoids are the ones the filter removes. *)
Theorem trim_is_redundant_for_the_count (raw : jsstring) :
  List.length (List.filter nonEmpty (split_whitespace raw)) = countWords raw.
Proof.
  rewrite countWords_tokens, spec_tokenCount_trim.
  unfold split_whitespace. rewrite split_go_count by discriminate.
  reflexivity.
Qed.

Lemma spec_tokens_app_sep (f : bool) (a b : jsstring) (c : code_unit) :
  isWhiteSpace c = true ->
  spec_tokens_from f (a ++ c :: b)
  = spec_tokens_from f a + spec_tokens_from true b.
Proof.
  intros Hc. revert f. induction a as [|x a IH]; intros f; simpl.
  - now rewrite Hc.
  - destruct (isWhiteSpace x); rewrite IH; lia.
Qed.

(** X5. Word counts add up over texts joined by whitespace. *)
Theorem countWords_additive (a w b : jsstring) :
  w <> [] ->
  blank w = true ->
  countWords (a ++ w ++ b) = countWords a + countWords b.
Proof.
  intros Hne Hw. rewrite !countWords_tokens, !spec_tokenCount_trim.
  unfold spec_tokenCount.
  destruct w as [|c w]; [contradiction|].
  simpl in Hw. apply andb_prop in Hw. destruct Hw as [Hc Hw].
  simpl. rewrite spec_tokens_app_sep by exact Hc.
  now rewrite spec_tokens_blank_app.
Qed.

Lemma countWords_additive_witness :
  js " " <> []
  /\ blank (js " ") = true
  /\ countWords (js "one two" ++ js " " ++ js "three")
     = countWords (js "one two") + countWords (js "three").
Proof.
  split; [discriminate|]. split; [reflexivity|].
  apply (countWords_additive (js "one two") (js " ") (js "three"));
    [discriminate | reflexivity].
Defined.

Lemma spec_tokens_bound (f : bool) (s : jsstring) :
  2 * spec_tokens_from f s <= List.length s + (if f then 1 else 0).
Proof.
  revert f. induction s as [|c r IH]; intros f; simpl.
  - lia.
  - destruct (isWhiteSpace c).
    + specialize (IH true). simpl in IH. destruct f; lia.
    + specialize (IH false). simpl in IH. destruct f; lia.
Qed.

(** X6. Words need a separator between them: a text of [n] code units has at
    most [(n + 1) / 2] words. *)
Theorem wordCount_bound (file : File) (raw : jsstring) (conf : number)
    (now : jsstring) :
  2 * wordCount (buildResult file raw conf now)
  <= List.length (text (buildResult file raw conf now)) + 1.
Proof.
  cbn [buildResult wordCount text]. rewrite countWords_tokens.
  apply (spec_tokens_bound true).
Qed.

End TextProperties.

(** ** The stored confidence on the engine's 0-100 scale (line 45) *)

Section PercentageScale.

Lemma pow2_53_47 : 2 ^ 53 = 64 * 2 ^ 47.
Proof. vm_compute. reflexivity. Qed.

Lemma pow2_46_45 : 2 ^ 46 = 2 * 2 ^ 45.
Proof. vm_compute. reflexivity. Qed.

Lemma leb_finite_hundred (m : positive) (e : Z) :
  leb (S754_finite false m e) (of_Z 100) = true ->
  e < -46 \/ (e = -46 /\ Z.pos m <= 100 * 2 ^ 46).
Proof.
  rewrite of_Z_100, hundred_pow2_46. apply leb_finite_finite.
Qed.

Lemma nearest_integer_percent (m : positive) (e : Z) :
  Z.pos m < 2 ^ 53 ->
  e < -46 \/ (e = -46 /\ Z.pos m <= 100 * 2 ^ 46) ->
  0 <= nearest_integer false m e <= 100.
Proof.
  intros Hm He. unfold nearest_integer.
  assert (Hneg : e < 0) by lia.
  rewrite Z.shiftr_div_pow2, Z.shiftl_mul_pow2 by lia.
  rewrite Z.mul_1_l.
  set (h := 2 ^ (- e - 1)).
  assert (Hh : 0 < h) by (apply Z.pow_pos_nonneg; lia).
  assert (Hp : 2 ^ (- e) = 2 * h).
  { unfold h. rewrite <- Z.pow_succ_r by lia. f_equal. lia. }
  rewrite Hp.
  assert (Hb : Z.pos m + h < (2 * h) * 101).
  { destruct He as [He | [He Hle]].
    - assert (H47 : 2 ^ 47 <= 2 ^ (- e)) by (apply Z.pow_le_mono_r; lia).
      rewrite pow2_53_47 in Hm. lia.
    - subst e. change (- -46 - 1) with 45 in h.
      rewrite pow2_46_45 in Hle. fold h in Hle. lia. }
  split.
  - apply Z.div_pos; lia.
  - apply Z.lt_succ_r. apply Z.div_lt_upper_bound; lia.
Qed.

(** The integers from 0 to 100 are binary64 values. *)
(** X7. The engine reports its confidence on a scale from 0 to 100.  For a
    binary64 confidence in that range the stored value is an integer
    between 0 and 100. *)
Theorem confidence_on_percentage_scale (file : File) (raw : jsstring)
    (c : number) (now : jsstring) :
  is_binary64 c = true ->
  leb zero c = true ->
  leb c (of_Z 100) = true ->
  exists z : Z,
    integer_value (confidence (buildResult file raw c now)) = Some z
    /\ 0 <= z <= 100.
Proof.
  intros Hv H0 H1. cbn [buildResult confidence].
  destruct c as [s | s | | s m e].
  - exists 0. split; [reflexivity | lia].
  - rewrite of_Z_100 in H1. destruct s; discriminate.
  - discriminate.
  - assert (s = false) by (eapply leb_zero_finite; eassumption). subst s.
    apply binary64_mantissa in Hv. apply leb_finite_hundred in H1.
    pose proof (nearest_integer_percent m e Hv H1) as Hz.
    unfold Math_round.
    destruct (Z.leb_spec 0 e) as [He | _]; [lia|].
    exists (nearest_integer false m e). split; [|exact Hz].
    destruct (Z.eqb_spec (nearest_integer false m e) 0) as [-> | _].
    + reflexivity.
    + now apply integer_value_small.
Qed.

Lemma confidence_on_percentage_scale_witness :
  is_binary64 (div (of_Z 433) (of_Z 5)) = true
  /\ leb zero (div (of_Z 433) (of_Z 5)) = true
  /\ leb (div (of_Z 433) (of_Z 5)) (of_Z 100) = true
  /\ exists z : Z,
       integer_value
         (confidence
            (buildResult sampleImage helloRaw (div (of_Z 433) (of_Z 5))
               sampleNow))
       = Some z
       /\ 0 <= z <= 100.
Proof.
  split; [vm_compute; reflexivity|].
  split; [vm_compute; reflexivity|].
  split; [vm_compute; reflexivity|].
  apply (confidence_on_percentage_scale sampleImage helloRaw
           (div (of_Z 433) (of_Z 5)) sampleNow);
    vm_compute; reflexivity.
Defined.

End PercentageScale.

(** ** The page *)

Section PageProperties.

Lemma split_on_go_head (sep : code_unit) (s cur : jsstring) :
  exists piece rest, split_on_go sep s cur = piece :: rest.
Proof.
  revert cur. induction s as [|c r IH]; intros cur; simpl.
  - eauto.
  - destruct (N.eqb c sep); [eauto | apply IH].
Qed.

Lemma split_on_go_second (sep : code_unit) (s cur : jsstring) :
  nth_error (split_on_go sep s cur) 1 = None <-> ~ In sep s.
Proof.
  revert cur. induction s as [|c r IH]; intros cur; cbn [split_on_go In].
  - split; [intros _ [] | reflexivity].
  - destruct (N.eqb_spec c sep) as [-> | Hne].
    + destruct (split_on_go_head sep r []) as [piece [rest ->]].
      split; [discriminate | intros H; elim H; now left].
    + rewrite IH. split; intros H.
      * intros [Heq | Hin]; [congruence | contradiction].
      * intros Hin. apply H. now right.
Qed.

Lemma split_on_go_none (sep : code_unit) (s cur : jsstring) :
  ~ In sep s -> split_on_go sep s cur = [rev cur ++ s].
Proof.
  revert cur. induction s as [|c r IH]; intros cur Hs; simpl.
  - now rewrite app_nil_r.
  - destruct (N.eqb_spec c sep) as [-> | Hne]; [elim Hs; now left|].
    rewrite IH by (intros Hin; apply Hs; now right).
    simpl. now rewrite <- app_assoc.
Qed.

Lemma split_on_go_first (sep : code_unit) (a b cur : jsstring) :
  ~ In sep a ->
  split_on_go sep (a ++ sep :: b) cur
  = (rev cur ++ a) :: split_on_go sep b [].
Proof.
  revert cur. induction a as [|c a IH]; intros cur Ha; simpl.
  - rewrite N.eqb_refl. now rewrite app_nil_r.
  - destruct (N.eqb_spec c sep) as [-> | Hne]; [elim Ha; now left|].
    rewrite IH by (intros Hin; apply Ha; now right).
    simpl. now rewrite <- app_assoc.
Qed.

(** X8. The file-type badge exists exactly when the stored type holds a slash;
    for a type [a/b] with no further slash it is [b] in upper case. *)
Theorem fileTypeBadge_needs_a_slash (toUpperCase : jsstring -> jsstring)
    (data : ExtractedData) :
  (fileTypeBadge toUpperCase data = None <-> ~ In slash (fileType data))
  /\ (forall a b : jsstring,
        fileType data = a ++ slash :: b ->
        ~ In slash a -> ~ In slash b ->
        fileTypeBadge toUpperCase data = Some (toUpperCase b)).
Proof.
  unfold fileTypeBadge, split_on. split.
  - rewrite <- (split_on_go_second slash (fileType data) []).
    destruct (nth_error _ 1); split; congruence.
  - intros a b -> Ha Hb.
    rewrite split_on_go_first by exact Ha.
    rewrite split_on_go_none by exact Hb. reflexivity.
Qed.

Lemma fileTypeBadge_needs_a_slash_witness :
  fileTypeBadge (fun s => s)
    (buildResult sampleImage helloRaw (of_Z 87) sampleNow)
  = Some (js "png").
Proof.
  apply (proj2 (fileTypeBadge_needs_a_slash (fun s => s)
                  (buildResult sampleImage helloRaw (of_Z 87) sampleNow))
           (js "image") (js "png")).
  - reflexivity.
  - vm_compute. intuition discriminate.
  - vm_compute. intuition discriminate.
Defined.

Lemma fileTypeBadge_none (toUpperCase : jsstring -> jsstring)
    (data : ExtractedData) :
  fileTypeBadge toUpperCase data = None <-> ~ In slash (fileType data).
Proof.
  unfold fileTypeBadge, split_on.
  rewrite <- (split_on_go_second slash (fileType data) []).
  destruct (nth_error _ 1); split; congruence.
Qed.

(** X9. Rendering throws exactly when a result is stored whose file type holds
    no slash. *)
Theorem render_throws_iff (toUpperCase : jsstring -> jsstring)
    (isDragActive : bool) (st : AppState) :
  render toUpperCase isDragActive st = None
  <-> exists data, extractedData st = Some data
                   /\ ~ In slash (fileType data).
Proof.
  unfold render. destruct (extractedData st) as [data|].
  - destruct (fileTypeBadge toUpperCase data) as [badge|] eqn:Hb.
    + split; [discriminate|].
      intros [d [Hd Hs]]. injection Hd as <-.
      apply (fileTypeBadge_none toUpperCase) in Hs. congruence.
    + split; [|reflexivity]. intros _. exists data. split; [reflexivity|].
      now apply (fileTypeBadge_none toUpperCase).
  - split; [discriminate|]. intros [d [Hd _]]. discriminate.
Qed.

Lemma notifyAll_dragActive (log : list LoggerMessage.t) (w : World) :
  dragActive (app (notifyAll log w)) = dragActive (app w).
Proof. apply notifyAll_frame. Qed.

Lemma processImage_dragActive (file : File) (r : EngineRun) (sys : System) :
  dragActive (app (world (processImage file r sys)))
  = dragActive (app (world sys)).
Proof.
  rewrite processImage_is_direct. cbn [focus world].
  unfold processImage_direct.
  destruct (createWorker_result r) as [[]|e1];
    [destruct (recognize_result r) as [[text confidence]|e2];
       [destruct (terminate_result r) as [[]|e3]|]|];
    unfold resume_terminate, processImage_catch, processImage_finally,
      processImage_enter, emit, setIsProcessing, setProgress,
      setExtractedData;
    cbn [fst app dragActive];
    repeat (rewrite notifyAll_dragActive; cbn [fst app dragActive]);
    reflexivity.
Qed.

(** X10. After a successful recognition of a file whose type reads [a/b]
    the page renders, and this is all it shows: the drop area highlighted
    as it was, no processing card, and a results card with the word count
    of the raw text, the rounded confidence, the badge [b] in upper case,
    the file name, the built record as JSON and its preview. *)
Theorem page_after_success (toUpperCase : jsstring -> jsstring)
    (isDragActive : bool) (file : File) (r : EngineRun) (sys : System)
    (raw : jsstring) (conf : number) (a b : jsstring) :
  tryOutcome r = Fulfilled (raw, conf) ->
  type file = a ++ slash :: b ->
  ~ In slash a ->
  ~ In slash b ->
  render toUpperCase isDragActive (app (world (processImage file r sys)))
  = Some {| dropAreaHighlighted :=
              isDragActive || dragActive (app (world sys));
            processingCard := None;
            resultsCard :=
              Some {| wordsFound := countWords raw;
                      confidenceShown := Math_round conf;
                      fileTypeShown := toUpperCase b;
                      fileNameShown := name file;
                      jsonOutput := buildResult file raw conf (now r);
                      textPreview :=
                        previewBlock (buildResult file raw conf (now r)) |}
         |}.
Proof.
  intros H Htype Ha Hb.
  destruct (processImage_ends_idle file r sys) as [Hflag _].
  pose proof (processImage_fulfilled file r sys raw conf H) as Hd.
  unfold render. rewrite Hd, Hflag, processImage_dragActive.
  unfold fileTypeBadge, split_on. cbn [buildResult fileType].
  rewrite Htype, split_on_go_first by exact Ha.
  rewrite split_on_go_none by exact Hb. reflexivity.
Qed.

Lemma page_after_success_witness :
  tryOutcome (sampleRun helloRaw (of_Z 87)) = Fulfilled (helloRaw, of_Z 87)
  /\ type sampleImage = js "image" ++ slash :: js "png"
  /\ ~ In slash (js "image")
  /\ ~ In slash (js "png")
  /\ render asciiUpperCase false
       (app (world (processImage sampleImage (sampleRun helloRaw (of_Z 87))
                      initialSystem)))
     = Some {| dropAreaHighlighted := false;
               processingCard := None;
               resultsCard :=
                 Some {| wordsFound := 2;
                         confidenceShown := of_Z 87;
                         fileTypeShown := js "PNG";
                         fileNameShown := js "scan.png";
                         jsonOutput :=
                           buildResult sampleImage helloRaw (of_Z 87)
                             sampleNow;
                         textPreview := Some (js "Hello   World") |} |}.
Proof.
  assert (Ha : ~ In slash (js "image")) by (vm_compute; intuition discriminate).
  assert (Hb : ~ In slash (js "png")) by (vm_compute; intuition discriminate).
  split; [reflexivity|]. split; [reflexivity|].
  split; [exact Ha|]. split; [exact Hb|].
  rewrite (page_after_success asciiUpperCase false sampleImage
             (sampleRun helloRaw (of_Z 87)) initialSystem
             helloRaw (of_Z 87) (js "image") (js "png")
             eq_refl eq_refl Ha Hb).
  vm_compute. reflexivity.
Defined.

(** X11. The preview never shows more than 503 code units. *)
Theorem preview_length_bound (d : ExtractedData) :
  (List.length (displayedPreview d) <= 503)%nat
  /\ (List.length (displayedPreview d)
      <= List.length (text d) + 3)%nat.
Proof.
  rewrite displayedPreview_eq.
  destruct (Nat.ltb_spec 500 (List.length (text d))) as [H | H].
  - rewrite length_app, length_firstn. cbn [List.length js List.map
      list_ascii_of_string]. lia.
  - lia.
Qed.

End PageProperties.

(** ** What an invocation does, whatever the engine does *)

Section InvocationProperties.

Local Open Scope nat_scope.

(** X12. A fulfilled [try] block replaces whatever result was stored by the one
    built from the dropped file, the recognized text and confidence, and
    the time of building. *)
Theorem successful_invocation_replaces_result (file : File) (r : EngineRun)
    (sys : System) (raw : jsstring) (conf : number) :
  tryOutcome r = Fulfilled (raw, conf) ->
  exists d : ExtractedData,
    extractedData (app (world (processImage file r sys))) = Some d
    /\ text d = trim raw
    /\ confidence d = Math_round conf
    /\ fileName d = name file
    /\ fileType d = type file
    /\ timestamp d = now r
    /\ wordCount d = countWords raw.
Proof.
  intros H. exists (buildResult file raw conf (now r)).
  split; [now apply processImage_fulfilled|].
  repeat split; reflexivity.
Qed.

Lemma successful_invocation_replaces_result_witness :
  tryOutcome (sampleRun helloRaw (of_Z 87)) = Fulfilled (helloRaw, of_Z 87)
  /\ exists d : ExtractedData,
       extractedData
         (app (world (processImage sampleImage (sampleRun helloRaw (of_Z 87))
                        (processImage sampleImage
                           (sampleRun (js "old") (of_Z 3)) initialSystem))))
       = Some d
       /\ text d = trim helloRaw
       /\ confidence d = Math_round (of_Z 87)
       /\ fileName d = name sampleImage
       /\ fileType d = type sampleImage
       /\ timestamp d = now (sampleRun helloRaw (of_Z 87))
       /\ wordCount d = countWords helloRaw.
Proof.
  split; [reflexivity|].
  apply (successful_invocation_replaces_result sampleImage
           (sampleRun helloRaw (of_Z 87))
           (processImage sampleImage (sampleRun (js "old") (of_Z 3))
              initialSystem)
           helloRaw (of_Z 87)).
  reflexivity.
Defined.

Lemma pendingCount_focus (invs : list Invocation) (file : File)
    (stage : option Stage) (w : World) :
  pendingCount (focus invs file stage w)
  = List.length (List.filter pending invs)
    + (match stage with Some _ => 1 | None => 0 end).
Proof.
  unfold pendingCount, focus. cbn [invocations].
  rewrite filter_app, length_app. destruct stage; reflexivity.
Qed.

(** X13. Whatever the engine does, an invocation that has run to its end has
    passed through [finally]: the processing flag is off, the progress is
    zero, the invocation is no longer pending and no other invocation was
    touched. *)
Theorem invocation_always_runs_finally (file : File) (r : EngineRun)
    (sys : System) :
  isProcessing (app (world (processImage file r sys))) = false
  /\ progress (app (world (processImage file r sys))) = zero
  /\ invocations (processImage file r sys)
     = invocations sys ++ [ {| inv_file := file; inv_stage := None |} ]
  /\ pendingCount (processImage file r sys) = pendingCount sys.
Proof.
  split; [apply processImage_ends_idle|].
  split; [apply processImage_ends_idle|].
  rewrite processImage_is_direct. split; [reflexivity|].
  rewrite pendingCount_focus. unfold pendingCount. lia.
Qed.

Lemma terminate_iff_recognized_witness :
  ~ In (Terminate 0) (effects (world initialSystem))
  /\ (In (Terminate 0)
         (effects (world (processImage sampleImage failingRun initialSystem)))
      <-> exists raw conf,
            createWorker_result failingRun = Fulfilled tt
            /\ recognize_result failingRun = Fulfilled (raw, conf)).
Proof.
  split; [intros []|].
  apply (terminate_iff_recognized sampleImage failingRun initialSystem).
  intros [].
Defined.

(** X15. What an invocation emits: its engine calls in order, then one notice.
    On success that is one success toast with the word count; on any
    rejection it is the console entry and one failure toast whose text does
    not depend on what failed. *)
Theorem invocation_effects (file : File) (r : EngineRun) (sys : System) :
  effects (world (processImage file r sys))
  = effects (world sys)
    ++ engineCalls (List.length (invocations sys)) file r
    ++ invocationNotices r.
Proof.
  rewrite processImage_is_direct. cbn [focus world].
  unfold processImage_direct, engineCalls, invocationNotices, tryOutcome.
  destruct (createWorker_result r) as [[]|e1].
  - destruct (recognize_result r) as [[text confidence]|e2].
    + destruct (terminate_result r) as [[]|e3];
        cbn [resume_terminate fst processImage_catch processImage_finally
             processImage_enter setProgress setIsProcessing
             setExtractedData emit effects buildResult wordCount];
        rewrite notifyAll_effects; cbn [emit effects];
        rewrite notifyAll_effects; cbn [emit effects processImage_enter
          setProgress setIsProcessing];
        rewrite <- !app_assoc; reflexivity.
    + cbn [processImage_catch processImage_finally setProgress
           setIsProcessing emit effects].
      rewrite notifyAll_effects; cbn [emit effects];
        rewrite notifyAll_effects; cbn [emit effects processImage_enter
          setProgress setIsProcessing];
        rewrite <- !app_assoc; reflexivity.
  - cbn [processImage_catch processImage_finally setProgress
         setIsProcessing emit effects].
    rewrite notifyAll_effects; cbn [emit effects processImage_enter
      setProgress setIsProcessing];
      rewrite <- !app_assoc; reflexivity.
Qed.

End InvocationProperties.

(** ** Events in any order *)

Section Interleavings.

Local Open Scope nat_scope.

Lemma resume_world_cases (id : nat)
    (k : File -> Stage -> World -> option (World * option Stage))
    (sys : System) :
  world (resume id k sys) = world sys
  \/ exists file stage stage',
       k file stage (world sys) = Some (world (resume id k sys), stage').
Proof.
  destruct (resume_cases id k sys)
    as [-> | [file [stage [w [stage' [_ [Hk ->]]]]]]]; [now left|].
  right. exists file, stage, stage'. exact Hk.
Qed.

(** A resumption that did nothing closes the goal; otherwise the world it
    produced is named [w'] and [Hk] tells which continuation made it. *)
Ltac resume_frame :=
  match goal with
  | |- context [resume ?i ?k ?sys] =>
      let H := fresh "H" in
      pose proof (resume_world_cases i k sys) as H;
      generalize dependent (world (resume i k sys));
      let w' := fresh "w'" in
      intros w' H;
      destruct H as [-> | [file [stage [stage' Hk]]]];
      [reflexivity | cbv beta in Hk]
  end.

(** X17. When an invocation ends, [finally] switches the processing flag off
    and zeroes the progress without looking at the other invocations: the
    ones still pending stay pending. *)
Theorem finishing_switches_processing_off (ev : Event) (sys : System)
    (id : nat) (file : File) (stage : Stage) :
  nth_error (invocations sys) id
  = Some {| inv_file := file; inv_stage := Some stage |} ->
  finishes ev id stage = true ->
  isProcessing (app (world (dispatch ev sys))) = false
  /\ progress (app (world (dispatch ev sys))) = zero
  /\ pendingCount (dispatch ev sys) + 1 = pendingCount sys.
Proof.
  intros Hnth Hfin.
  pose proof (pendingCount_set_nth (invocations sys) id _
                {| inv_file := file; inv_stage := None |} Hnth eq_refl)
    as Hcount.
  cbn [pending inv_stage] in Hcount.
  destruct ev; try discriminate.
  - destruct o as [|e]; destruct stage; try discriminate.
    apply Nat.eqb_eq in Hfin. subst id0.
    cbn [dispatch]. unfold resume. rewrite Hnth.
    cbn [resume_createWorker]. unfold pendingCount. cbn [world invocations].
    repeat split; try reflexivity. lia.
  - destruct o as [|e]; destruct stage; try discriminate.
    apply Nat.eqb_eq in Hfin. subst id0.
    cbn [dispatch]. unfold resume. rewrite Hnth.
    cbn [resume_recognize]. unfold pendingCount. cbn [world invocations].
    repeat split; try reflexivity. lia.
  - destruct stage; try discriminate.
    apply Nat.eqb_eq in Hfin. subst id0.
    cbn [dispatch]. unfold resume. rewrite Hnth.
    unfold pendingCount.
    destruct o as [[]|e]; cbn [resume_terminate world invocations];
      repeat split; try reflexivity; lia.
Qed.

Lemma finishing_switches_processing_off_witness :
  nth_error
    (invocations (run [Drop [sampleImage]; Drop [sampleImage]] initialSystem))
    0
  = Some {| inv_file := sampleImage; inv_stage := Some AwaitCreateWorker |}
  /\ finishes (CreateWorkerSettled 0 (Rejected (js "NetworkError"))) 0
       AwaitCreateWorker = true
  /\ isProcessing
       (app (world (dispatch
                      (CreateWorkerSettled 0 (Rejected (js "NetworkError")))
                      (run [Drop [sampleImage]; Drop [sampleImage]]
                         initialSystem))))
     = false
  /\ pendingCount
       (dispatch (CreateWorkerSettled 0 (Rejected (js "NetworkError")))
          (run [Drop [sampleImage]; Drop [sampleImage]] initialSystem))
     = 1.
Proof.
  split; [reflexivity|]. split; [reflexivity|].
  destruct (finishing_switches_processing_off
              (CreateWorkerSettled 0 (Rejected (js "NetworkError")))
              (run [Drop [sampleImage]; Drop [sampleImage]] initialSystem)
              0 sampleImage AwaitCreateWorker eq_refl eq_refl)
    as [Hflag [_ Hcount]].
  split; [exact Hflag|].
  change (pendingCount
            (run [Drop [sampleImage]; Drop [sampleImage]] initialSystem))
    with 2 in Hcount.
  now apply Nat.add_cancel_r with (p := 1).
Defined.

(** X18. As long as no image is dropped while a recognition is pending, at most
    one invocation is pending and the processing flag is on exactly while
    one is. *)
Theorem serial_flag_tracks_pending (evs : list Event) :
  serialTrace evs initialSystem = true ->
  pendingCount (run evs initialSystem) <= 1
  /\ (isProcessing (app (world (run evs initialSystem))) = true
      <-> pendingCount (run evs initialSystem) = 1).
Proof.
  intros Hs.
  destruct (serialTrace_flag evs initialSystem Hs initialSystem_flag)
    as [[H0 Hf] | [H1 Ht]].
  - rewrite H0, Hf. split; [lia|]. split; [discriminate | lia].
  - rewrite H1, Ht. split; [lia|]. split; reflexivity.
Qed.

Lemma serial_flag_tracks_pending_witness :
  serialTrace [Drop [sampleImage]; Notify 0 (recognizing n0_5)]
    initialSystem = true
  /\ isProcessing
       (app (world (run [Drop [sampleImage]; Notify 0 (recognizing n0_5)]
                      initialSystem)))
     = true.
Proof.
  split; [reflexivity|].
  apply (serial_flag_tracks_pending
           [Drop [sampleImage]; Notify 0 (recognizing n0_5)] eq_refl).
  reflexivity.
Defined.

(** X19. The stored result changes only when an invocation is fulfilled to its
    end or on reset: no drop, notification, rejection, drag or copy touches
    it. *)
Theorem result_changes_only_on_success_or_reset (ev : Event) (sys : System) :
  extractedData (app (world (dispatch ev sys)))
  = extractedData (app (world sys))
  \/ ev = ClickReset
  \/ exists id now, ev = TerminateSettled id (Fulfilled tt) now.
Proof.
  destruct ev; cbn [dispatch].
  - left. destruct acceptedFiles as [|file others]; [reflexivity|].
    cbn [onDrop]. destruct (isPDF file); reflexivity.
  - left. reflexivity.
  - left. reflexivity.
  - left. unfold in_world, copyToClipboard. cbn [world].
    destruct (extractedData (app (world sys))) eqn:Hd;
      [destruct writeText|]; cbn; now rewrite ?Hd.
  - right. now left.
  - left. destruct (nth_error (invocations sys) id); [|reflexivity].
    apply logger_frame.
  - left. resume_frame.
    destruct stage; try discriminate.
    destruct o; injection Hk as <- _; reflexivity.
  - left. resume_frame.
    destruct stage; try discriminate.
    destruct o as [[text confidence]|e]; injection Hk as <- _; reflexivity.
  - destruct o as [[]|e]; [right; right; eauto|].
    left. resume_frame.
    destruct stage; try discriminate.
    injection Hk as <- _; reflexivity.
Qed.

(** X20. Only entering and leaving with a drag change [dragActive]; dropping
    the file does not switch it off. *)
Theorem only_drag_events_touch_dragActive (ev : Event) (sys : System) :
  dragActive (app (world (dispatch ev sys)))
  = match ev with
    | DragEnter => true
    | DragLeave => false
    | _ => dragActive (app (world sys))
    end.
Proof.
  destruct ev; cbn [dispatch].
  - destruct acceptedFiles as [|file others]; [reflexivity|].
    cbn [onDrop]. destruct (isPDF file); reflexivity.
  - reflexivity.
  - reflexivity.
  - unfold in_world, copyToClipboard. cbn [world].
    destruct (extractedData (app (world sys)));
      [destruct writeText|]; reflexivity.
  - reflexivity.
  - destruct (nth_error (invocations sys) id); [|reflexivity].
    apply logger_frame.
  - resume_frame.
    destruct stage; try discriminate.
    destruct o; injection Hk as <- _; reflexivity.
  - resume_frame.
    destruct stage; try discriminate.
    destruct o as [[text confidence]|e]; injection Hk as <- _; reflexivity.
  - resume_frame.
    destruct stage; try discriminate.
    destruct o as [[]|e]; injection Hk as <- _; reflexivity.
Qed.

End Interleavings.

(** ** The engine protocol *)

Section EngineProtocol.

Local Open Scope nat_scope.

Lemma callsIn_app (p : Effect -> bool) (l1 l2 : list Effect) :
  callsIn p (l1 ++ l2) = callsIn p l1 + callsIn p l2.
Proof. unfold callsIn. now rewrite filter_app, length_app. Qed.

Lemma nth_error_set_nth_same {A : Type} (l : list A) (i : nat) (x y : A) :
  nth_error l i = Some x -> nth_error (set_nth i y l) i = Some y.
Proof.
  revert i. induction l as [|a l IH]; intros [|i] H; try discriminate.
  - reflexivity.
  - simpl. now apply IH.
Qed.

Lemma nth_error_set_nth_other {A : Type} (l : list A) (i j : nat) (y : A) :
  i <> j -> nth_error (set_nth i y l) j = nth_error l j.
Proof.
  revert i j. induction l as [|a l IH]; intros [|i] [|j] H;
    try reflexivity; try contradiction.
  simpl. apply IH. congruence.
Qed.

(** A step of invocation [id0] that appends [new] to the effects. *)
Lemma protocol_resume (sys : System) (id0 : nat) (file : File)
    (stage : Stage) (w' : World) (stage' : option Stage)
    (new : list Effect) :
  protocolInvariant sys ->
  nth_error (invocations sys) id0
  = Some {| inv_file := file; inv_stage := Some stage |} ->
  effects w' = effects (world sys) ++ new ->
  (forall id, callsIn (isCreateWorker id) new = 0) ->
  (forall id, id <> id0 ->
     callsIn (isRecognize id) new = 0 /\ callsIn (isTerminate id) new = 0) ->
  (forall rec term,
     stageCalls (Some stage) rec term ->
     stageCalls stage' (rec + callsIn (isRecognize id0) new)
       (term + callsIn (isTerminate id0) new)) ->
  protocolInvariant
    {| world := w';
       invocations :=
         set_nth id0 {| inv_file := file; inv_stage := stage' |}
           (invocations sys) |}.
Proof.
  intros Hinv Hnth Heff Hcreate Hother Hstep id.
  specialize (Hinv id). unfold calls in *. cbn [world invocations].
  rewrite Heff. fold (callsIn (isCreateWorker id) (effects (world sys) ++ new)).
  fold (callsIn (isRecognize id) (effects (world sys) ++ new)).
  fold (callsIn (isTerminate id) (effects (world sys) ++ new)).
  rewrite !callsIn_app, Hcreate.
  destruct (Nat.eq_dec id id0) as [-> | Hne].
  - rewrite (nth_error_set_nth_same _ _ _ _ Hnth). rewrite Hnth in Hinv.
    cbn [inv_stage] in *. destruct Hinv as [Hc Hs].
    split; [unfold callsIn; lia|]. now apply Hstep.
  - rewrite nth_error_set_nth_other by congruence.
    destruct (Hother id Hne) as [-> ->].
    destruct (nth_error (invocations sys) id) as [inv|];
      unfold callsIn; now rewrite !Nat.add_0_r.
Qed.

(** A handler that calls no engine function and starts nothing. *)
Lemma protocol_quiet (sys : System) (w' : World) (new : list Effect) :
  protocolInvariant sys ->
  effects w' = effects (world sys) ++ new ->
  (forall id, callsIn (isCreateWorker id) new = 0
              /\ callsIn (isRecognize id) new = 0
              /\ callsIn (isTerminate id) new = 0) ->
  protocolInvariant {| world := w'; invocations := invocations sys |}.
Proof.
  intros Hinv Heff Hnew id. specialize (Hinv id).
  unfold calls in *. cbn [world invocations]. rewrite Heff.
  fold (callsIn (isCreateWorker id) (effects (world sys) ++ new)).
  fold (callsIn (isRecognize id) (effects (world sys) ++ new)).
  fold (callsIn (isTerminate id) (effects (world sys) ++ new)).
  rewrite !callsIn_app.
  destruct (Hnew id) as [-> [-> ->]].
  destruct (nth_error (invocations sys) id) as [inv|];
    unfold callsIn; now rewrite !Nat.add_0_r.
Qed.

Lemma callsIn_single (p : Effect -> bool) (e : Effect) :
  callsIn p [e] = if p e then 1 else 0.
Proof. unfold callsIn. simpl. now destruct (p e). Qed.

Lemma protocol_call (file : File) (sys : System) :
  protocolInvariant sys -> protocolInvariant (processImage_call file sys).
Proof.
  intros Hinv id. specialize (Hinv id).
  unfold processImage_call, calls in *. cbn [world invocations].
  cbn [processImage_enter emit setProgress setIsProcessing effects].
  set (n := List.length (invocations sys)) in *.
  fold (callsIn (isCreateWorker id) (effects (world sys) ++ [CreateWorker n])).
  fold (callsIn (isRecognize id) (effects (world sys) ++ [CreateWorker n])).
  fold (callsIn (isTerminate id) (effects (world sys) ++ [CreateWorker n])).
  rewrite !callsIn_app, !callsIn_single.
  cbn [isCreateWorker isRecognize isTerminate].
  unfold callsIn. rewrite !Nat.add_0_r.
  destruct (Nat.lt_trichotomy id n) as [Hlt | [-> | Hgt]].
  - rewrite nth_error_app1 by exact Hlt.
    assert (Hn : Nat.eqb n id = false) by (apply Nat.eqb_neq; lia).
    rewrite Hn, !Nat.add_0_r. exact Hinv.
  - unfold n at 1. rewrite nth_error_last.
    assert (Hnone : nth_error (invocations sys) n = None)
      by (apply nth_error_None; unfold n; lia).
    rewrite Hnone in Hinv. destruct Hinv as [Hc [Hr Ht]].
    rewrite Nat.eqb_refl. cbn [inv_stage stageCalls].
    rewrite Hc, Hr, Ht. repeat split; reflexivity.
  - assert (Hnone : nth_error (invocations sys) id = None)
      by (apply nth_error_None; unfold n in Hgt; lia).
    rewrite Hnone in Hinv.
    assert (Hnone' : nth_error
                       (invocations sys
                        ++ [ {| inv_file := file;
                                inv_stage := Some AwaitCreateWorker |} ]) id
                     = None).
    { apply nth_error_None. rewrite length_app. cbn. unfold n in Hgt. lia. }
    rewrite Hnone'.
    assert (Hn : Nat.eqb n id = false) by (apply Nat.eqb_neq; lia).
    rewrite Hn, !Nat.add_0_r. exact Hinv.
Qed.

Lemma eqb_other (id id0 : nat) : id <> id0 -> Nat.eqb id0 id = false.
Proof. intros H. apply Nat.eqb_neq. congruence. Qed.

Lemma dispatch_protocol (ev : Event) (sys : System) :
  protocolInvariant sys -> protocolInvariant (dispatch ev sys).
Proof.
  intros Hinv. destruct ev; cbn [dispatch].
  - destruct acceptedFiles as [|file others]; [exact Hinv|].
    cbn [onDrop]. destruct (isPDF file); [|now apply protocol_call].
    eapply protocol_quiet; [exact Hinv | reflexivity|].
    intros id. repeat split; reflexivity.
  - apply (protocol_quiet sys _ []); [exact Hinv | |].
    + cbn. now rewrite app_nil_r.
    + intros id. repeat split; reflexivity.
  - apply (protocol_quiet sys _ []); [exact Hinv | |].
    + cbn. now rewrite app_nil_r.
    + intros id. repeat split; reflexivity.
  - unfold in_world, copyToClipboard.
    destruct (extractedData (app (world sys))) as [d|].
    + destruct writeText;
        (eapply protocol_quiet;
         [exact Hinv | cbn; rewrite <- app_assoc; reflexivity|]);
        intros id; repeat split; reflexivity.
    + apply (protocol_quiet sys _ []); [exact Hinv | |].
      * now rewrite app_nil_r.
      * intros id. repeat split; reflexivity.
  - apply (protocol_quiet sys _ []); [exact Hinv | |].
    + cbn. now rewrite app_nil_r.
    + intros id. repeat split; reflexivity.
  - (* Notify *)
    destruct (nth_error (invocations sys) id); [|exact Hinv].
    apply (protocol_quiet sys _ []); [exact Hinv | |].
    + destruct (logger_frame m (world sys)) as [_ [_ [_ Heff]]].
      cbn [world]. now rewrite Heff, app_nil_r.
    + intros id'. repeat split; reflexivity.
  - (* createWorker settled *)
    match goal with |- context [resume ?i ?k sys] =>
      destruct (resume_cases i k sys)
        as [-> | [file [stage [w [stage' [Hnth [Hk ->]]]]]]] end;
      [exact Hinv|].
    cbv beta in Hk. destruct stage; try discriminate.
    destruct o as [[]|e]; injection Hk as <- <-.
    + apply (protocol_resume sys id file AwaitCreateWorker _ _
               [Recognize id file]);
        [exact Hinv | exact Hnth | | | |].
      * reflexivity.
      * intros id'. reflexivity.
      * intros id' Hne. rewrite !callsIn_single. cbn.
        rewrite (eqb_other _ _ Hne). split; reflexivity.
      * intros rec term [-> ->]. rewrite !callsIn_single. cbn.
        rewrite Nat.eqb_refl. split; reflexivity.
    + apply (protocol_resume sys id file AwaitCreateWorker _ _
               [ConsoleError (js "OCR Error:") e;
                ToastError (js "Failed to extract text. Please try again.")]);
        [exact Hinv | exact Hnth | | | |].
      * cbn. rewrite <- app_assoc. reflexivity.
      * intros id'. reflexivity.
      * intros id' Hne. split; reflexivity.
      * intros rec term [-> ->]. cbn. lia.
  - (* recognize settled *)
    match goal with |- context [resume ?i ?k sys] =>
      destruct (resume_cases i k sys)
        as [-> | [file [stage [w [stage' [Hnth [Hk ->]]]]]]] end;
      [exact Hinv|].
    cbv beta in Hk. destruct stage; try discriminate.
    destruct o as [[text confidence]|e]; injection Hk as <- <-.
    + apply (protocol_resume sys id file AwaitRecognize _ _
               [Terminate id]);
        [exact Hinv | exact Hnth | | | |].
      * reflexivity.
      * intros id'. reflexivity.
      * intros id' Hne. rewrite !callsIn_single. cbn.
        rewrite (eqb_other _ _ Hne). split; reflexivity.
      * intros rec term [-> ->]. rewrite !callsIn_single. cbn.
        rewrite Nat.eqb_refl. split; reflexivity.
    + apply (protocol_resume sys id file AwaitRecognize _ _
               [ConsoleError (js "OCR Error:") e;
                ToastError (js "Failed to extract text. Please try again.")]);
        [exact Hinv | exact Hnth | | | |].
      * cbn. rewrite <- app_assoc. reflexivity.
      * intros id'. reflexivity.
      * intros id' Hne. split; reflexivity.
      * intros rec term [-> ->]. cbn. lia.
  - (* terminate settled *)
    match goal with |- context [resume ?i ?k sys] =>
      destruct (resume_cases i k sys)
        as [-> | [file [stage [w [stage' [Hnth [Hk ->]]]]]]] end;
      [exact Hinv|].
    cbv beta in Hk. destruct stage as [| |text confidence]; try discriminate.
    destruct o as [[]|e]; injection Hk as <- <-.
    + apply (protocol_resume sys id file (AwaitTerminate text confidence) _ _
               [ToastSuccess
                  (js "Text extracted successfully! Found "
                     ++ JSString.of_nat
                          (wordCount (buildResult file text confidence now0))
                     ++ js " words.")]);
        [exact Hinv | exact Hnth | | | |].
      * reflexivity.
      * intros id'. reflexivity.
      * intros id' Hne. split; reflexivity.
      * intros rec term [-> ->]. cbn. lia.
    + apply (protocol_resume sys id file (AwaitTerminate text confidence) _ _
               [ConsoleError (js "OCR Error:") e;
                ToastError (js "Failed to extract text. Please try again.")]);
        [exact Hinv | exact Hnth | | | |].
      * cbn. rewrite <- app_assoc. reflexivity.
      * intros id'. reflexivity.
      * intros id' Hne. split; reflexivity.
      * intros rec term [-> ->]. cbn. lia.
Qed.

Lemma run_protocol (evs : list Event) (sys : System) :
  protocolInvariant sys -> protocolInvariant (run evs sys).
Proof.
  revert sys. induction evs as [|ev evs IH]; intros sys H; [exact H|].
  cbn [run fold_left]. apply IH. now apply dispatch_protocol.
Qed.

Lemma initialSystem_protocol : protocolInvariant initialSystem.
Proof. intros [|id]; repeat split; reflexivity. Qed.

(** X21. However drops, notifications and settlements interleave, the engine
    is used in order: per invocation [createWorker] is called at most once,
    [recognize] only after it and at most once, [terminate] only after
    [recognize] and at most once. *)
Theorem engine_calls_in_order (evs : list Event) (id : nat) :
  calls (isCreateWorker id) (run evs initialSystem) <= 1
  /\ calls (isRecognize id) (run evs initialSystem)
     <= calls (isCreateWorker id) (run evs initialSystem)
  /\ calls (isTerminate id) (run evs initialSystem)
     <= calls (isRecognize id) (run evs initialSystem).
Proof.
  pose proof (run_protocol evs initialSystem initialSystem_protocol id) as H.
  destruct (nth_error (invocations (run evs initialSystem)) id) as [inv|].
  - destruct H as [Hc Hs]. destruct (inv_stage inv) as [[| |text conf]|];
      cbn [stageCalls] in Hs; lia.
  - lia.
Qed.

(** X22. An invocation that has been started has called [createWorker] exactly
    once, and no [createWorker] call bears a number that no invocation
    has. *)
Theorem started_invocations_have_a_worker (evs : list Event) (id : nat) :
  (id < List.length (invocations (run evs initialSystem))
   <-> calls (isCreateWorker id) (run evs initialSystem) = 1)
  /\ (id >= List.length (invocations (run evs initialSystem))
      <-> calls (isCreateWorker id) (run evs initialSystem) = 0).
Proof.
  pose proof (run_protocol evs initialSystem initialSystem_protocol id) as H.
  destruct (nth_error (invocations (run evs initialSystem)) id) as [inv|]
    eqn:Hnth.
  - assert (id < List.length (invocations (run evs initialSystem)))
      by (apply nth_error_Some; congruence).
    destruct H as [Hc _]. rewrite Hc. split; split; intros; lia.
  - apply nth_error_None in Hnth.
    destruct H as [Hc _]. rewrite Hc. split; split; intros; lia.
Qed.

End EngineProtocol.

(** ** Reset while a recognition is pending *)

Section ResetWhilePending.

(** How the engine moves an invocation from stage to stage does not depend
    on the application state. *)
Lemma dispatch_invocations (ev : Event) (sys1 sys2 : System) :
  fromEngine ev = true ->
  invocations sys1 = invocations sys2 ->
  invocations (dispatch ev sys1) = invocations (dispatch ev sys2).
Proof.
  intros Hev Hinvs. destruct ev; try discriminate.
  - cbn [dispatch]. rewrite Hinvs.
    destruct (nth_error (invocations sys2) id); exact Hinvs.
  - cbn [dispatch]. unfold resume. rewrite Hinvs.
    destruct (nth_error (invocations sys2) id) as [[file [stage|]]|];
      try exact Hinvs.
    destruct stage; try exact Hinvs. destruct o; reflexivity.
  - cbn [dispatch]. unfold resume. rewrite Hinvs.
    destruct (nth_error (invocations sys2) id) as [[file [stage|]]|];
      try exact Hinvs.
    destruct stage; try exact Hinvs.
    destruct o as [[text confidence]|e]; reflexivity.
  - cbn [dispatch]. unfold resume. rewrite Hinvs.
    destruct (nth_error (invocations sys2) id) as [[file [stage|]]|];
      try exact Hinvs.
    destruct stage; try exact Hinvs. destruct o; reflexivity.
Qed.

Lemma run_invocations (evs : list Event) (sys1 sys2 : System) :
  Forall (fun ev => fromEngine ev = true) evs ->
  invocations sys1 = invocations sys2 ->
  invocations (run evs sys1) = invocations (run evs sys2).
Proof.
  revert sys1 sys2. induction evs as [|ev evs IH]; intros sys1 sys2 Hall H;
    [exact H|].
  inversion Hall as [|? ? Hev Hrest]; subst.
  cbn [run fold_left]. apply IH; [exact Hrest|].
  now apply dispatch_invocations.
Qed.

Lemma notifications_fromEngine (id : nat) (log : list LoggerMessage.t) :
  Forall (fun ev => fromEngine ev = true) (List.map (Notify id) log).
Proof. induction log; constructor; auto. Qed.

(** Before its last await a fulfilled invocation waits for [terminate]
    with the recognized text and confidence at hand. *)
Lemma run_until_terminate (file : File) (r : EngineRun) (sys : System)
    (raw : jsstring) (conf : number) :
  tryOutcome r = Fulfilled (raw, conf) ->
  exists w,
    run (List.map (Notify (List.length (invocations sys)))
           (createWorker_log r)
         ++ [CreateWorkerSettled (List.length (invocations sys))
               (createWorker_result r)]
         ++ List.map (Notify (List.length (invocations sys)))
              (recognize_log r)
         ++ [RecognizeSettled (List.length (invocations sys))
               (recognize_result r)])
        (processImage_call file sys)
    = focus (invocations sys) file (Some (AwaitTerminate raw conf)) w.
Proof.
  intros H. unfold tryOutcome in H.
  destruct (createWorker_result r) as [[]|e1]; [|discriminate].
  destruct (recognize_result r) as [[text confidence]|e2]; [|discriminate].
  destruct (terminate_result r) as [[]|e3]; [|discriminate].
  injection H as -> ->.
  rewrite processImage_call_focus.
  rewrite !run_app, run_notify, !run_single, dispatch_createWorker.
  cbn [resume_createWorker fst snd].
  rewrite run_notify, dispatch_recognize. cbn [resume_recognize fst snd].
  eexists. reflexivity.
Qed.

(** X23. Reset does not cancel a recognition.  When the user resets at any
    moment before a fulfilled invocation has ended, the invocation goes on
    and its result is stored all the same. *)
Theorem reset_does_not_cancel (file : File) (r : EngineRun) (sys : System)
    (raw : jsstring) (conf : number) (before after : list Event) :
  tryOutcome r = Fulfilled (raw, conf) ->
  before ++ after = engineEvents (List.length (invocations sys)) r ->
  after <> [] ->
  extractedData
    (app (world (run after
                   (dispatch ClickReset
                      (run before (processImage_call file sys))))))
  = Some (buildResult file raw conf (now r)).
Proof.
  intros Hok Hsplit Hafter.
  destruct (exists_last Hafter) as [after' [final Hlast]]. subst after.
  assert (Hevents :
            engineEvents (List.length (invocations sys)) r
            = (List.map (Notify (List.length (invocations sys)))
                 (createWorker_log r)
               ++ [CreateWorkerSettled (List.length (invocations sys))
                     (createWorker_result r)]
               ++ List.map (Notify (List.length (invocations sys)))
                    (recognize_log r)
               ++ [RecognizeSettled (List.length (invocations sys))
                     (recognize_result r)])
              ++ [TerminateSettled (List.length (invocations sys))
                    (terminate_result r) (now r)]).
  { unfold engineEvents, tryOutcome in *.
    destruct (createWorker_result r) as [[]|e1]; [|discriminate].
    destruct (recognize_result r) as [[text confidence]|e2]; [|discriminate].
    rewrite <- !app_assoc. reflexivity. }
  rewrite Hevents, app_assoc in Hsplit.
  apply app_inj_tail in Hsplit. destruct Hsplit as [Hpre ->].
  destruct (run_until_terminate file r sys raw conf Hok) as [w Hw].
  rewrite <- Hpre in Hw.
  assert (Hfrom : Forall (fun ev => fromEngine ev = true) after').
  { assert (Hall : Forall (fun ev => fromEngine ev = true)
                     (before ++ after')).
    { rewrite Hpre. repeat (apply Forall_app; split);
        try apply notifications_fromEngine; repeat constructor. }
    apply Forall_app in Hall. tauto. }
  set (sysA := run before (processImage_call file sys)) in *.
  assert (Hinvs : invocations (run after' (dispatch ClickReset sysA))
                  = invocations sys
                    ++ [ {| inv_file := file;
                            inv_stage := Some (AwaitTerminate raw conf) |} ]).
  { rewrite (run_invocations after' (dispatch ClickReset sysA) sysA Hfrom)
      by reflexivity.
    unfold sysA. rewrite <- run_app, Hw. reflexivity. }
  rewrite run_app, run_single.
  set (sysR := run after' (dispatch ClickReset sysA)) in *.
  assert (HsysR : sysR = focus (invocations sys) file
                           (Some (AwaitTerminate raw conf)) (world sysR)).
  { unfold focus. rewrite <- Hinvs. now destruct sysR. }
  rewrite HsysR, dispatch_terminate.
  unfold tryOutcome in Hok.
  destruct (createWorker_result r) as [[]|e1]; [|discriminate].
  destruct (recognize_result r) as [[text confidence]|e2]; [|discriminate].
  destruct (terminate_result r) as [[]|e3]; [|discriminate].
  reflexivity.
Qed.

Lemma reset_does_not_cancel_witness :
  tryOutcome (sampleRun helloRaw (of_Z 87)) = Fulfilled (helloRaw, of_Z 87)
  /\ extractedData
       (app (world
               (run [TerminateSettled 0 (Fulfilled tt) sampleNow]
                  (dispatch ClickReset
                     (run [Notify 0 (LoggerMessage.mk
                                       (js "loading tesseract core") n0_5);
                           CreateWorkerSettled 0 (Fulfilled tt);
                           Notify 0 (recognizing n0_5);
                           RecognizeSettled 0
                             (Fulfilled (helloRaw, of_Z 87))]
                        (processImage_call sampleImage initialSystem))))))
     = Some (buildResult sampleImage helloRaw (of_Z 87) sampleNow).
Proof.
  split; [reflexivity|].
  apply (reset_does_not_cancel sampleImage (sampleRun helloRaw (of_Z 87))
           initialSystem helloRaw (of_Z 87)
           [Notify 0 (LoggerMessage.mk (js "loading tesseract core") n0_5);
            CreateWorkerSettled 0 (Fulfilled tt);
            Notify 0 (recognizing n0_5);
            RecognizeSettled 0 (Fulfilled (helloRaw, of_Z 87))]
           [TerminateSettled 0 (Fulfilled tt) sampleNow]).
  - reflexivity.
  - reflexivity.
  - discriminate.
Defined.

End ResetWhilePending.

(** ** What reaches the clipboard *)

Section Clipboard.

Lemma recognized_mono (evs : list Event) (ev : Event) (sys sys' : System)
    (d : ExtractedData) :
  sameFiles sys sys' ->
  recognized evs sys d -> recognized (evs ++ [ev]) sys' d.
Proof.
  intros Hs (id & inv & rest & raw & conf & o & now & Hn & Hd & Hr & Ht & ->).
  destruct (Hs id inv Hn) as (inv' & Hn' & Hf).
  exists id, inv', rest, raw, conf, o, now. rewrite Hf.
  repeat split; try (apply in_or_app; left); assumption.
Qed.

Lemma sameFiles_refl (sys : System) : sameFiles sys sys.
Proof. intros id inv H. exists inv. split; [exact H | reflexivity]. Qed.

Lemma sameFiles_in_world (f : World -> World) (sys : System) :
  sameFiles sys (in_world f sys).
Proof. intros id inv H. exists inv. split; [exact H | reflexivity]. Qed.

(** A handler that leaves the invocations alone, stores no result of its
    own and writes to the clipboard only what is stored. *)
Lemma clipboard_in_world (evs : list Event) (ev : Event) (sys : System)
    (f : World -> World) :
  (forall d, extractedData (app (f (world sys))) = Some d ->
             extractedData (app (world sys)) = Some d) ->
  (forall d, In (ClipboardWriteJSON d) (effects (f (world sys))) ->
             In (ClipboardWriteJSON d) (effects (world sys))
             \/ extractedData (app (world sys)) = Some d) ->
  clipboardInvariant evs sys ->
  clipboardInvariant (evs ++ [ev]) (in_world f sys).
Proof.
  intros Hdata Heff (H0 & H1 & H2 & H3).
  split; [|split; [|split]]; cbn [in_world invocations world].
  - intros id inv Hn. destruct (H0 id inv Hn) as [rest Hr].
    exists rest. apply in_or_app. now left.
  - intros id inv text confidence Hn Hst. apply in_or_app. left.
    now apply (H1 id inv).
  - intros d Hd. apply recognized_mono with (sys := sys).
    + apply sameFiles_in_world.
    + apply H2, Hdata, Hd.
  - intros d Hd. apply recognized_mono with (sys := sys).
    + apply sameFiles_in_world.
    + destruct (Heff d Hd) as [Hold | Hst]; [now apply H3 | now apply H2].
Qed.

Lemma clipboard_idle (evs : list Event) (ev : Event) (sys : System) :
  clipboardInvariant evs sys -> clipboardInvariant (evs ++ [ev]) sys.
Proof.
  intros Hinv.
  assert (H : clipboardInvariant (evs ++ [ev]) (in_world (fun w => w) sys))
    by (apply clipboard_in_world; [tauto | tauto | exact Hinv]).
  destruct sys. exact H.
Qed.

Ltac old_write H :=
  repeat (apply in_app_or in H; destruct H as [H | [H | []]];
          [ | discriminate H ]).

Lemma nth_error_snoc {A : Type} (l : list A) (x y : A) (i : nat) :
  nth_error (l ++ [x]) i = Some y ->
  nth_error l i = Some y \/ (i = List.length l /\ y = x).
Proof.
  intros H. destruct (Nat.lt_ge_cases i (List.length l)) as [Hlt | Hge].
  - left. now rewrite nth_error_app1 in H.
  - right. rewrite nth_error_app2 in H by exact Hge.
    destruct (i - List.length l)%nat as [|k] eqn:E.
    + split; [lia | now injection H].
    + destruct k; discriminate.
Qed.

Lemma clipboard_call (evs : list Event) (file : File) (rest : list File)
    (sys : System) :
  clipboardInvariant evs sys ->
  clipboardInvariant (evs ++ [Drop (file :: rest)])
    (processImage_call file sys).
Proof.
  intros (H0 & H1 & H2 & H3).
  assert (Hs : sameFiles sys (processImage_call file sys)).
  { intros id inv Hn. exists inv. split; [|reflexivity].
    cbn [processImage_call invocations]. rewrite nth_error_app1; [exact Hn|].
    apply nth_error_Some. congruence. }
  split; [|split; [|split]]; cbn [processImage_call invocations world].
  - intros id inv Hn. apply nth_error_snoc in Hn.
    destruct Hn as [Hn | [_ ->]].
    + destruct (H0 id inv Hn) as [rest' Hr].
      exists rest'. apply in_or_app. now left.
    + exists rest. apply in_or_app. right. now left.
  - intros id inv text confidence Hn Hst. apply nth_error_snoc in Hn.
    destruct Hn as [Hn | [_ ->]]; [|discriminate].
    apply in_or_app. left. now apply (H1 id inv).
  - intros d Hd. apply recognized_mono with (sys := sys); [exact Hs|].
    apply H2. exact Hd.
  - intros d Hd. apply recognized_mono with (sys := sys); [exact Hs|].
    apply H3. unfold processImage_enter in Hd. cbn in Hd.
    old_write Hd. exact Hd.
Qed.

Lemma sameFiles_set_nth (sys : System) (id : nat) (file : File)
    (stage : option Stage) (stage' : option Stage) (w : World) :
  nth_error (invocations sys) id
  = Some {| inv_file := file; inv_stage := stage |} ->
  sameFiles sys
    {| world := w;
       invocations :=
         set_nth id {| inv_file := file; inv_stage := stage' |}
           (invocations sys) |}.
Proof.
  intros Hn id' inv Hn'. cbn [invocations].
  destruct (Nat.eq_dec id id') as [<- | Hne].
  - rewrite (nth_error_set_nth_same _ _ _ _ Hn).
    eexists. split; [reflexivity|].
    rewrite Hn in Hn'. injection Hn' as <-. reflexivity.
  - rewrite nth_error_set_nth_other by exact Hne.
    exists inv. split; [exact Hn' | reflexivity].
Qed.

(** A step of invocation [id]: it stores a result only as [newData] allows
    and waits for [terminate] only as [newStage] allows. *)
Lemma clipboard_resume (evs : list Event) (ev : Event) (sys : System)
    (id : nat) (file : File) (stage : Stage) (w' : World)
    (stage' : option Stage) :
  nth_error (invocations sys) id
  = Some {| inv_file := file; inv_stage := Some stage |} ->
  (forall text confidence,
      stage' = Some (AwaitTerminate text confidence) ->
      ev = RecognizeSettled id (Fulfilled (text, confidence))) ->
  (forall d,
      extractedData (app w') = Some d ->
      extractedData (app (world sys)) = Some d
      \/ exists text confidence o now,
           stage = AwaitTerminate text confidence
           /\ ev = TerminateSettled id (Fulfilled o) now
           /\ d = buildResult file text confidence now) ->
  (forall d, In (ClipboardWriteJSON d) (effects w') ->
             In (ClipboardWriteJSON d) (effects (world sys))) ->
  clipboardInvariant evs sys ->
  clipboardInvariant (evs ++ [ev])
    {| world := w';
       invocations :=
         set_nth id {| inv_file := file; inv_stage := stage' |}
           (invocations sys) |}.
Proof.
  intros Hn Hstage Hdata Heff (H0 & H1 & H2 & H3).
  pose proof (sameFiles_set_nth sys id file (Some stage) stage' w' Hn) as Hs.
  split; [|split; [|split]]; cbn [invocations world].
  - intros id' inv Hn'.
    destruct (Nat.eq_dec id id') as [<- | Hne].
    + rewrite (nth_error_set_nth_same _ _ _ _ Hn) in Hn'.
      injection Hn' as <-. cbn [inv_file].
      destruct (H0 id _ Hn) as [rest Hr].
      exists rest. apply in_or_app. now left.
    + rewrite nth_error_set_nth_other in Hn' by exact Hne.
      destruct (H0 id' inv Hn') as [rest Hr].
      exists rest. apply in_or_app. now left.
  - intros id' inv text confidence Hn' Hst.
    destruct (Nat.eq_dec id id') as [<- | Hne].
    + rewrite (nth_error_set_nth_same _ _ _ _ Hn) in Hn'.
      injection Hn' as <-. cbn [inv_stage] in Hst.
      apply in_or_app. right. left. now apply Hstage.
    + rewrite nth_error_set_nth_other in Hn' by exact Hne.
      apply in_or_app. left. now apply (H1 id' inv).
  - intros d Hd.
    destruct (Hdata d Hd)
      as [Hold | (text & confidence & o & now & -> & -> & ->)].
    + apply recognized_mono with (sys := sys); [exact Hs | now apply H2].
    + destruct (H0 id _ Hn) as [rest Hr]. cbn [inv_file] in Hr.
      exists id, {| inv_file := file; inv_stage := stage' |}, rest,
        text, confidence, o, now.
      cbn [invocations inv_file].
      split; [exact (nth_error_set_nth_same _ _ _ _ Hn)|].
      split; [apply in_or_app; now left|].
      split; [apply in_or_app; left; now apply (H1 id _ _ _ Hn)|].
      split; [apply in_or_app; right; now left | reflexivity].
  - intros d Hd. apply recognized_mono with (sys := sys); [exact Hs|].
    apply H3, Heff, Hd.
Qed.

Lemma clipboard_dispatch (evs : list Event) (ev : Event) (sys : System) :
  clipboardInvariant evs sys ->
  clipboardInvariant (evs ++ [ev]) (dispatch ev sys).
Proof.
  intros Hinv. destruct ev as [files | | | o | | id m | id o | id o | id o now];
    cbn [dispatch].
  - destruct files as [|file rest]; cbn [onDrop].
    + now apply clipboard_idle.
    + destruct (isPDF file).
      * apply clipboard_in_world; [tauto | | exact Hinv].
        intros d Hd. left. unfold processPDF in Hd. cbn in Hd.
        old_write Hd. exact Hd.
      * now apply clipboard_call.
  - apply clipboard_in_world; [tauto | tauto | exact Hinv].
  - apply clipboard_in_world; [tauto | tauto | exact Hinv].
  - apply clipboard_in_world; [| | exact Hinv].
    + intros d. unfold copyToClipboard.
      destruct (extractedData (app (world sys))) as [data|] eqn:E;
        [destruct o|]; cbn; rewrite E; tauto.
    + intros d. unfold copyToClipboard.
      destruct (extractedData (app (world sys))) as [data|] eqn:E;
        [|tauto].
      destruct o; cbn; intros Hd;
        (apply in_app_or in Hd; destruct Hd as [Hd | [Hd | []]];
         [|discriminate Hd]);
        (apply in_app_or in Hd; destruct Hd as [Hd | [Hd | []]];
         [now left | right; now injection Hd as ->]).
  - apply clipboard_in_world; [discriminate | tauto | exact Hinv].
  - destruct (nth_error (invocations sys) id).
    + apply clipboard_in_world; [| | exact Hinv]; intros d.
      * now rewrite (proj1 (proj2 (logger_frame m (world sys)))).
      * rewrite (proj2 (proj2 (proj2 (logger_frame m (world sys))))). tauto.
    + now apply clipboard_idle.
  - match goal with |- context [resume id ?k sys] =>
      destruct (resume_cases id k sys)
        as [-> | (file & stage & w & stage' & Hn & Hk & ->)] end.
    + now apply clipboard_idle.
    + destruct stage; try discriminate Hk.
      unfold resume_createWorker in Hk.
      eapply clipboard_resume; [exact Hn | | | | exact Hinv];
        destruct o as [[]|e]; injection Hk as <- <-; cbn;
        try discriminate; try tauto;
        intros d Hd; old_write Hd; exact Hd.
  - match goal with |- context [resume id ?k sys] =>
      destruct (resume_cases id k sys)
        as [-> | (file & stage & w & stage' & Hn & Hk & ->)] end.
    + now apply clipboard_idle.
    + destruct stage; try discriminate Hk.
      unfold resume_recognize in Hk.
      eapply clipboard_resume; [exact Hn | | | | exact Hinv];
        destruct o as [[text confidence]|e]; injection Hk as <- <-; cbn;
        try discriminate; try tauto.
      * intros t c H. now injection H as -> ->.
      * intros d Hd; old_write Hd; exact Hd.
      * intros d Hd; old_write Hd; exact Hd.
  - match goal with |- context [resume id ?k sys] =>
      destruct (resume_cases id k sys)
        as [-> | (file & stage & w & stage' & Hn & Hk & ->)] end.
    + now apply clipboard_idle.
    + destruct stage as [| |text confidence]; try discriminate Hk.
      unfold resume_terminate in Hk.
      eapply clipboard_resume; [exact Hn | | | | exact Hinv];
        destruct o as [[]|e]; injection Hk as <- <-; cbn;
        try discriminate; try tauto.
      * intros d Hd. right. exists text, confidence, tt, now.
        injection Hd as <-. repeat split; reflexivity.
      * intros d Hd; old_write Hd; exact Hd.
      * intros d Hd; old_write Hd; exact Hd.
Qed.

Lemma clipboard_run (evs : list Event) :
  clipboardInvariant evs (run evs initialSystem).
Proof.
  induction evs as [|ev evs IH] using rev_ind.
  - split; [|split; [|split]]; cbn.
    + intros [|id] inv H; discriminate H.
    + intros [|id] inv t c H; discriminate H.
    + discriminate.
    + intros d [].
  - rewrite run_app, run_single. now apply clipboard_dispatch.
Qed.

(** X16. Whatever the order of events, every record written to the
    clipboard was built by one invocation: from the file of a dropped
    image, the text and the confidence that [recognize] gave that very
    invocation, and the time at which its [terminate] was fulfilled.
    Nothing is copied before a recognition has succeeded, and overlapping
    invocations never get their files or texts mixed. *)
Theorem clipboard_receives_recognized_results (evs : list Event)
    (d : ExtractedData) :
  In (ClipboardWriteJSON d) (effects (world (run evs initialSystem))) ->
  exists (id : nat) (inv : Invocation) (rest : list File)
         (raw : jsstring) (conf : number) (o : unit) (now : jsstring),
    nth_error (invocations (run evs initialSystem)) id = Some inv
    /\ In (Drop (inv_file inv :: rest)) evs
    /\ In (RecognizeSettled id (Fulfilled (raw, conf))) evs
    /\ In (TerminateSettled id (Fulfilled o) now) evs
    /\ d = buildResult (inv_file inv) raw conf now.
Proof. intros H. now apply (clipboard_run evs). Qed.

Lemma clipboard_receives_recognized_results_witness :
  In (ClipboardWriteJSON (buildResult sampleScan helloRaw (of_Z 87) sampleNow))
    (effects (world (run copyTrace initialSystem)))
  /\ exists (id : nat) (inv : Invocation) (rest : list File)
            (raw : jsstring) (conf : number) (o : unit) (now : jsstring),
       nth_error (invocations (run copyTrace initialSystem)) id = Some inv
       /\ In (Drop (inv_file inv :: rest)) copyTrace
       /\ In (RecognizeSettled id (Fulfilled (raw, conf))) copyTrace
       /\ In (TerminateSettled id (Fulfilled o) now) copyTrace
       /\ buildResult sampleScan helloRaw (of_Z 87) sampleNow
          = buildResult (inv_file inv) raw conf now.
Proof.
  assert (H : In (ClipboardWriteJSON
                    (buildResult sampleScan helloRaw (of_Z 87) sampleNow))
                (effects (world (run copyTrace initialSystem)))).
  { vm_compute. repeat (first [left; reflexivity | right]). }
  split; [exact H|].
  exact (clipboard_receives_recognized_results copyTrace _ H).
Defined.

End Clipboard.
